(** * CGPA_CAL: the grade / GPA / CGPA engine (src/src/App.tsx, "GPA Engine Service")

    A shallow embedding of the engine's functions and the proofs of its
    specification.

    Modelling conventions.
    - A JavaScript [number] is a rational ([Q]); results are compared with
      [==] ([Qeq]), since [Q] does not keep fractions reduced.  NaN, the
      infinities and the sign of zero are outside the model.
    - The numbers of the code are IEEE-754 doubles.  Module [Double] models
      their arithmetic: [Double.round] maps a rational to the nearest double,
      the even significand winning a tie, and [Double.add], [Double.mul] and
      [Double.div] are the exact operations followed by it.
      [Double.calculateGPA], [Double.calculateCGPA] and the queries of the
      data service built on them are the functions of the source over this
      arithmetic; what is proved about the value of an average, and about
      totals that depend on how sums are rounded, is proved about them.
    - The functions of the same names outside [Double] compute with the exact
      [+], [*] and [/].  They carry the properties in which rounding plays no
      part: comparisons of scores with the integer bounds of the table, the
      zero-unit guard, and which results the service selects, stores and
      returns.
    - [Math.round x] is the integer [floor (x + 1/2)] (ties go up).
    - [a || b] returns [b] when [a] is falsy: [undefined], the number [0] or the
      empty string.
    - [Array.prototype.find] is [List.find]; [reduce] with an initial value is
      [fold_left]; optional chaining [e?.f] on the result of [find] is a match
      on the option.
    - A [throw] is the [Throw] completion carrying the error object, which
      records the constructor it was built with.
    - [String.prototype.toUpperCase] maps [a]..[z] to [A]..[Z] and keeps every
      other byte.  (The Unicode mappings JavaScript adds never produce one of
      the one-letter grades of the table from a string that is not already
      covered by the ASCII mapping.) *)

From Stdlib Require Import QArith Qround Qabs Qpower ZArith List String Ascii Bool Lia Lqa.
Import ListNotations.

Open Scope Q_scope.

(** ** JavaScript primitives used by the engine *)

Module Js.

(** The type of JavaScript numbers. *)
Abbreviation number := Q (only parsing).

(** [x < y] on numbers. *)
Definition ltb (x y : number) : bool := negb (Qle_bool y x).
(** [x >= y] and [x <= y] on numbers. *)
Definition geb (x y : number) : bool := Qle_bool y x.
Definition leb (x y : number) : bool := Qle_bool x y.
(** [x === y] on numbers. *)
Definition eqb (x y : number) : bool := Qeq_bool x y.

Definition Math_round (x : number) : number := inject_Z (Qfloor (x + (1 # 2))).

(** [a || b] where [a] is a number that may be [undefined]. *)
Definition or_number (a : option number) (b : number) : number :=
  match a with
  | Some n => if eqb n 0 then b else n
  | None => b
  end.

(** [a || b] where [a] is a string that may be [undefined]. *)
Definition or_string (a : option string) (b : string) : string :=
  match a with
  | Some EmptyString => b
  | Some s => s
  | None => b
  end.

Definition upper_ascii (c : ascii) : ascii :=
  let n := N_of_ascii c in
  if (97 <=? n)%N && (n <=? 122)%N then ascii_of_N (n - 32) else c.

Definition lower_ascii (c : ascii) : ascii :=
  let n := N_of_ascii c in
  if (65 <=? n)%N && (n <=? 90)%N then ascii_of_N (n + 32) else c.

Fixpoint toUpperCase (s : string) : string :=
  match s with
  | EmptyString => EmptyString
  | String c s' => String (upper_ascii c) (toUpperCase s')
  end.

Fixpoint toLowerCase (s : string) : string :=
  match s with
  | EmptyString => EmptyString
  | String c s' => String (lower_ascii c) (toLowerCase s')
  end.

(** The built-in error constructors; the engine only ever calls [new Error]. *)
Inductive ErrorClass : Type := Error | RangeError | TypeError.

Record ErrorObject : Type := mkError { errClass : ErrorClass; message : string }.

(** The outcome of a call: a returned value or a thrown error. *)
Inductive completion (A : Type) : Type :=
  | Return (a : A)
  | Throw (e : ErrorObject).
Arguments Return {A} a.
Arguments Throw {A} e.

Definition bind {A B : Type} (c : completion A) (k : A -> completion B) : completion B :=
  match c with
  | Return a => k a
  | Throw e => Throw e
  end.

Definition throws {A : Type} (c : completion A) : Prop :=
  exists e, c = Throw e.

Definition throwsClass {A : Type} (cls : ErrorClass) (c : completion A) : Prop :=
  exists e, c = Throw e /\ errClass e = cls.

End Js.

Import Js.

Notation "'let*' x ':=' c 'in' k" := (bind c (fun x => k))
  (at level 61, x name, c at next level, right associativity).

(** ** Grading scale *)

Record GradeBand : Type := mkBand {
  minScore : number;
  maxScore : number;
  grade : string;
  point : number
}.

Definition GRADING_SCALE : list GradeBand :=
  [ mkBand 70 100 "A" 5;
    mkBand 60 69 "B" 4;
    mkBand 50 59 "C" 3;
    mkBand 45 49 "D" 2;
    mkBand 40 44 "E" 1;
    mkBand 0 39 "F" 0 ].

(** The predicate [(g) => score >= g.minScore && score <= g.maxScore]. *)
Definition bandMatches (score : number) (g : GradeBand) : bool :=
  geb score (minScore g) && leb score (maxScore g).

Definition scoreToGrade (score : number) : completion string :=
  if ltb score 0 || ltb 100 score then
    Throw (mkError Error "Score must be between 0 and 100")
  else
    let gradeEntry := find (bandMatches score) GRADING_SCALE in
    Return (or_string (option_map grade gradeEntry) "F").

Definition gradeToPoint (letter : string) : number :=
  let gradeEntry :=
    find (fun g => String.eqb (grade g) (toUpperCase letter)) GRADING_SCALE in
  or_number (option_map point gradeEntry) 0.

Definition scoreToPoint (score : number) : completion number :=
  let* g := scoreToGrade score in
  Return (gradeToPoint g).

Definition calculatePXU (gradePoint courseUnit : number) : number :=
  gradePoint * courseUnit.

(** ** GPA and CGPA *)

Record ScoredCourse : Type := mkCourse { gradePoint : number; courseUnit : number }.

Module GPA.
Record result : Type := mk { gpa : number; totalUnits : number; totalPoints : number }.
(** Field-wise equality of the numbers of two results. *)
Definition equiv (r1 r2 : result) : Prop :=
  gpa r1 == gpa r2 /\ totalUnits r1 == totalUnits r2 /\ totalPoints r1 == totalPoints r2.
End GPA.

Module Semester.
Record aggregate : Type := mk { totalUnits : number; totalPoints : number }.
End Semester.

Module CGPA.
Record result : Type := mk { cgpa : number; totalUnits : number; totalPoints : number }.
Definition equiv (r1 r2 : result) : Prop :=
  cgpa r1 == cgpa r2 /\ totalUnits r1 == totalUnits r2 /\ totalPoints r1 == totalPoints r2.
End CGPA.

Definition calculateGPA (results : list ScoredCourse) : GPA.result :=
  match results with
  | [] => GPA.mk 0 0 0
  | _ =>
    let totalUnits := fold_left (fun sum r => sum + courseUnit r) results 0 in
    let totalPoints :=
      fold_left (fun sum r => sum + gradePoint r * courseUnit r) results 0 in
    if eqb totalUnits 0 then GPA.mk 0 0 0
    else
      let gpa := totalPoints / totalUnits in
      GPA.mk (Math_round (gpa * 100) / 100) totalUnits totalPoints
  end.

Definition calculateCGPA (semesterResults : list Semester.aggregate) : CGPA.result :=
  match semesterResults with
  | [] => CGPA.mk 0 0 0
  | _ =>
    let totalUnits :=
      fold_left (fun sum s => sum + Semester.totalUnits s) semesterResults 0 in
    let totalPoints :=
      fold_left (fun sum s => sum + Semester.totalPoints s) semesterResults 0 in
    if eqb totalUnits 0 then CGPA.mk 0 0 0
    else
      let cgpa := totalPoints / totalUnits in
      CGPA.mk (Math_round (cgpa * 100) / 100) totalUnits totalPoints
  end.

Definition getClassOfDegree (cgpa : number) : string :=
  if geb cgpa 4.5 then "First Class Honours"
  else if geb cgpa 3.5 then "Second Class Upper"
  else if geb cgpa 2.5 then "Second Class Lower"
  else if geb cgpa 1.5 then "Third Class"
  else if geb cgpa 1.0 then "Pass"
  else "Fail".

(** ** Specification-side definitions *)

(** The letter and the band of an integer score, read off the lower bounds of
    the bands. *)
Definition letterOfInt (z : Z) : string :=
  if (70 <=? z)%Z then "A"
  else if (60 <=? z)%Z then "B"
  else if (50 <=? z)%Z then "C"
  else if (45 <=? z)%Z then "D"
  else if (40 <=? z)%Z then "E"
  else "F".

Definition bandOfInt (z : Z) : GradeBand :=
  if (70 <=? z)%Z then mkBand 70 100 "A" 5
  else if (60 <=? z)%Z then mkBand 60 69 "B" 4
  else if (50 <=? z)%Z then mkBand 50 59 "C" 3
  else if (45 <=? z)%Z then mkBand 45 49 "D" 2
  else if (40 <=? z)%Z then mkBand 40 44 "E" 1
  else mkBand 0 39 "F" 0.

(** The open intervals between the top of a band and the bottom of the band
    listed just before it. *)
Fixpoint gaps (bands : list GradeBand) : list (number * number) :=
  match bands with
  | hi :: ((lo :: _) as rest) => (maxScore lo, minScore hi) :: gaps rest
  | _ => []
  end.

Definition inGap (score : number) : Prop :=
  exists lo hi, In (lo, hi) (gaps GRADING_SCALE) /\ lo < score /\ score < hi.

(** The sum of [f] over a list, by recursion on the list. *)
Fixpoint sumOf {A : Type} (f : A -> number) (l : list A) : number :=
  match l with
  | [] => 0
  | x :: rest => f x + sumOf f rest
  end.

Definition sumUnits (results : list ScoredCourse) : number :=
  sumOf courseUnit results.

Definition sumPoints (results : list ScoredCourse) : number :=
  sumOf (fun r => gradePoint r * courseUnit r) results.

Definition sumSemesterUnits (semesters : list Semester.aggregate) : number :=
  sumOf Semester.totalUnits semesters.

Definition sumSemesterPoints (semesters : list Semester.aggregate) : number :=
  sumOf Semester.totalPoints semesters.

(** [y] is [x] rounded to two decimal places: a whole number of hundredths
    at distance at most half a hundredth from [x]. *)
Definition isRounded2 (x y : number) : Prop :=
  (exists k : Z, y == inject_Z k / 100) /\ Qabs (y - x) <= 1 # 200.

(** Rounding to two decimal places with ties going up. *)
Definition round2 (x : number) : number :=
  inject_Z (Qfloor (x * 100 + (1 # 2))) / 100.

From Stdlib Require Import Qminmax Permutation Sorted.

(** ** Grade colours *)

(** The [colors] object literal of [getGradeColor], in source order.  The key
    looked up is an upper-cased string, and every property an object literal
    inherits has a lower-case letter in its name, so only the six own
    properties can be found. *)
Definition colors : list (string * string) :=
  [ ("A", "text-emerald-600 bg-emerald-50");
    ("B", "text-blue-600 bg-blue-50");
    ("C", "text-yellow-600 bg-yellow-50");
    ("D", "text-orange-600 bg-orange-50");
    ("E", "text-red-500 bg-red-50");
    ("F", "text-red-700 bg-red-100") ]%string.

(** [obj[key]]: the value of the own property [key], if there is one. *)
Definition property (key : string) (obj : list (string * string)) : option string :=
  option_map snd (find (fun kv => String.eqb (fst kv) key) obj).

Definition getGradeColor (letter : string) : string :=
  or_string (property (toUpperCase letter) colors) "text-gray-600 bg-gray-50".

(** ** Arrays and maps *)

Module JsArray.

(** [findIndex]: [None] stands for the result [-1]. *)
Fixpoint findIndex {A : Type} (f : A -> bool) (l : list A) : option nat :=
  match l with
  | [] => None
  | x :: rest => if f x then Some 0%nat else option_map S (findIndex f rest)
  end.

(** [l[i] = x]; used only at an index [findIndex] returned, which is within
    the array. *)
Fixpoint setAt {A : Type} (i : nat) (x : A) (l : list A) : list A :=
  match i, l with
  | _, [] => []
  | O, _ :: rest => x :: rest
  | S i', y :: rest => y :: setAt i' x rest
  end.

(** [Array.prototype.sort] with a comparator: a stable sort, placing [x]
    before [y] when [cmp x y <= 0]. *)
Fixpoint insertSorted {A : Type} (cmp : A -> A -> number) (x : A) (l : list A)
  : list A :=
  match l with
  | [] => [x]
  | y :: rest =>
    if leb (cmp x y) 0 then x :: y :: rest else y :: insertSorted cmp x rest
  end.

Definition sort {A : Type} (cmp : A -> A -> number) (l : list A) : list A :=
  fold_right (insertSorted cmp) [] l.

(** [Math.max(...xs, last)] and [Math.min(x, ...xs)]. *)
Definition Math_max (xs : list number) (last : number) : number :=
  fold_right Qmax last xs.

Definition Math_min (x : number) (xs : list number) : number :=
  fold_left Qmin xs x.

End JsArray.

(** A [Map] with string keys: its entries in insertion order. *)
Module JsMap.

Definition t (V : Type) : Type := list (string * V).

Definition has {V : Type} (key : string) (m : t V) : bool :=
  existsb (fun kv => String.eqb (fst kv) key) m.

Definition get {V : Type} (key : string) (m : t V) : option V :=
  option_map snd (find (fun kv => String.eqb (fst kv) key) m).

(** [set] keeps the position of a key that is present and appends a new one. *)
Fixpoint set {V : Type} (key : string) (v : V) (m : t V) : t V :=
  match m with
  | [] => [(key, v)]
  | (k, v0) :: rest =>
    if String.eqb k key then (k, v) :: rest else (k, v0) :: set key v rest
  end.

End JsMap.

(** ** Data service: records *)

Module Department.
Record t : Type := mk { id : string; code : string; name : string }.
End Department.

Module Course.
Record t : Type := mk {
  id : string; courseCode : string; courseTitle : string; courseUnit : number }.
End Course.

Module Curriculum.
Record t : Type := mk {
  id : string; departmentId : string; level : number; semester : number;
  courseId : string; course : option Course.t }.
End Curriculum.

Module Student.
Record t : Type := mk {
  id : string; matricNo : string; fullName : string; departmentId : string;
  department : option Department.t }.
(** [Omit<Student, 'id'>]. *)
Record input : Type := mkInput {
  inMatricNo : string; inFullName : string; inDepartmentId : string;
  inDepartment : option Department.t }.
End Student.

(** A stored result.  The optional [student] field of the interface is never
    written by the service and is left out. *)
Module Result.
Record t : Type := mk {
  id : string; studentId : string; level : number; semester : number;
  courseCode : string; courseUnit : number; score : number;
  grade : string; gradePoint : number; pxu : number }.
End Result.

(** An element of the argument of [saveResults]. *)
Module Entry.
Record t : Type := mk {
  studentId : string; level : number; semester : number;
  courseCode : string; courseUnit : number; score : number }.
End Entry.

Module GPAResponse.
Record t : Type := mk {
  studentId : string; level : number; semester : number;
  results : list Result.t;
  totalUnits : number; totalPoints : number; gpa : number }.
End GPAResponse.

Module CGPAResponse.
Record t : Type := mk {
  studentId : string; student : Student.t;
  semesterGPAs : list GPAResponse.t;
  totalUnits : number; totalPoints : number; cgpa : number }.
End CGPAResponse.

Module StudentReport.
Record t : Type := mk {
  student : Student.t; gpa : number; cgpa : number; results : list Result.t }.
End StudentReport.

Module DepartmentReport.
Record t : Type := mk {
  department : Department.t; level : number; semester : number;
  students : list StudentReport.t }.
End DepartmentReport.

(** ** Data service: storage and environment *)

(** [localStorage] under the five [STORAGE_KEYS]: for each key the collection
    last written there, or [None] when the key holds nothing readable.  The
    collections are arrays of plain records of strings and numbers, which
    [JSON.parse (JSON.stringify x)] gives back unchanged. *)
Module Storage.
Record t : Type := mk {
  departments : option (list Department.t);
  courses : option (list Course.t);
  curriculum : option (list Curriculum.t);
  students : option (list Student.t);
  results : option (list Result.t) }.

Definition setStudents (data : list Student.t) (s : t) : t :=
  mk (departments s) (courses s) (curriculum s) (Some data) (results s).

Definition setResults (data : list Result.t) (s : t) : t :=
  mk (departments s) (courses s) (curriculum s) (students s) (Some data).
End Storage.

(** What the service takes from its environment: the identifier the [n]-th
    call of [generateId] returns (it is built from the clock and
    [Math.random]), the decimal form of a number in a template literal,
    [key.split('-').map(Number)] as a pair, and [parseInt], whose result is an
    integer or NaN ([None]). *)
Record Host : Type := mkHost {
  idOf : nat -> string;
  numberToString : number -> string;
  parseKey : string -> number * number;
  parseInt : string -> option Z }.

Record World : Type := mkWorld { storage : Storage.t; idCalls : nat }.

Definition generateId (host : Host) (w : World) : string * World :=
  (idOf host (idCalls w), mkWorld (storage w) (S (idCalls w))).

Definition getFromStorage {T : Type} (stored : option T) (defaultValue : T) : T :=
  match stored with
  | Some data => data
  | None => defaultValue
  end.

(** ** Data service: queries *)

Definition getDepartments (st : Storage.t) : list Department.t :=
  getFromStorage (Storage.departments st) [].

Definition getCourses (st : Storage.t) : list Course.t :=
  getFromStorage (Storage.courses st) [].

Definition getCurriculum (st : Storage.t) (departmentId : string)
    (level semester : number) : list Curriculum.t :=
  let curriculum := getFromStorage (Storage.curriculum st) [] in
  let courses := getFromStorage (Storage.courses st) [] in
  filter (fun c => match Curriculum.course c with Some _ => true | None => false end)
    (map (fun c =>
            Curriculum.mk (Curriculum.id c) (Curriculum.departmentId c)
              (Curriculum.level c) (Curriculum.semester c) (Curriculum.courseId c)
              (find (fun crs => String.eqb (Course.id crs) (Curriculum.courseId c))
                    courses))
       (filter (fun c =>
                  String.eqb (Curriculum.departmentId c) departmentId
                  && eqb (Curriculum.level c) level
                  && eqb (Curriculum.semester c) semester)
          curriculum)).

(** [departmentId] is optional; an absent or empty one selects every student. *)
Definition getStudents (st : Storage.t) (departmentId : option string)
  : list Student.t :=
  let students := getFromStorage (Storage.students st) [] in
  let departments := getDepartments st in
  let filteredStudents :=
    match departmentId with
    | None | Some EmptyString => students
    | Some d => filter (fun s => String.eqb (Student.departmentId s) d) students
    end in
  map (fun s =>
         Student.mk (Student.id s) (Student.matricNo s) (Student.fullName s)
           (Student.departmentId s)
           (find (fun d => String.eqb (Department.id d) (Student.departmentId s))
                 departments))
    filteredStudents.

Definition getResults (st : Storage.t) (studentId : string)
    (level semester : number) : list Result.t :=
  let results := getFromStorage (Storage.results st) [] in
  filter (fun r =>
            String.eqb (Result.studentId r) studentId
            && eqb (Result.level r) level
            && eqb (Result.semester r) semester)
    results.

(** The argument [calculateGPA] is given for a list of stored results. *)
Definition scoredCourses (results : list Result.t) : list ScoredCourse :=
  map (fun r => mkCourse (Result.gradePoint r) (Result.courseUnit r)) results.

Definition getStudentGPA (st : Storage.t) (studentId : string)
    (level semester : option number) : option GPAResponse.t :=
  let results := getFromStorage (Storage.results st) [] in
  let filteredResults :=
    filter (fun r => String.eqb (Result.studentId r) studentId) results in
  let filteredResults :=
    match level with
    | Some l => filter (fun r => eqb (Result.level r) l) filteredResults
    | None => filteredResults
    end in
  let filteredResults :=
    match semester with
    | Some s => filter (fun r => eqb (Result.semester r) s) filteredResults
    | None => filteredResults
    end in
  match filteredResults with
  | [] => None
  | _ =>
    let g := calculateGPA (scoredCourses filteredResults) in
    Some (GPAResponse.mk studentId (or_number level 0) (or_number semester 0)
            filteredResults (GPA.totalUnits g) (GPA.totalPoints g) (GPA.gpa g))
  end.

(** The key [`${result.level}-${result.semester}`]. *)
Definition semesterKey (host : Host) (r : Result.t) : string :=
  (numberToString host (Result.level r) ++ "-"
   ++ numberToString host (Result.semester r))%string.

(** The grouping loop of [getStudentCGPA]: one step for one result.  The
    [push] on [get(key)!] would throw a [TypeError] if the key were missing;
    the text of that message is the JavaScript engine's. *)
Definition groupStep (host : Host) (semesterGroups : JsMap.t (list Result.t))
    (result : Result.t) : completion (JsMap.t (list Result.t)) :=
  let key := semesterKey host result in
  let semesterGroups :=
    if negb (JsMap.has key semesterGroups) then JsMap.set key [] semesterGroups
    else semesterGroups in
  match JsMap.get key semesterGroups with
  | Some group => Return (JsMap.set key (group ++ [result]) semesterGroups)
  | None => Throw (mkError TypeError "Cannot read properties of undefined")
  end.

Fixpoint groupLoop (host : Host) (studentResults : list Result.t)
    (semesterGroups : JsMap.t (list Result.t))
  : completion (JsMap.t (list Result.t)) :=
  match studentResults with
  | [] => Return semesterGroups
  | result :: rest =>
    let* semesterGroups := groupStep host semesterGroups result in
    groupLoop host rest semesterGroups
  end.

(** The GPA of one group, as the second loop of [getStudentCGPA] builds it. *)
Definition semesterGPA (host : Host) (studentId : string)
    (group : string * list Result.t) : GPAResponse.t :=
  let (key, semResults) := group in
  let (level, semester) := parseKey host key in
  let g := calculateGPA (scoredCourses semResults) in
  GPAResponse.mk studentId level semester semResults
    (GPA.totalUnits g) (GPA.totalPoints g) (GPA.gpa g).

(** The comparator [(a, b) => a.level - b.level || a.semester - b.semester]. *)
Definition compareSemesters (a b : GPAResponse.t) : number :=
  or_number (Some (GPAResponse.level a - GPAResponse.level b))
            (GPAResponse.semester a - GPAResponse.semester b).

Definition getStudentCGPA (host : Host) (st : Storage.t) (studentId : string)
  : completion (option CGPAResponse.t) :=
  let students := getFromStorage (Storage.students st) [] in
  let results := getFromStorage (Storage.results st) [] in
  let departments := getDepartments st in
  match find (fun s => String.eqb (Student.id s) studentId) students with
  | None => Return None
  | Some student =>
    let studentResults :=
      filter (fun r => String.eqb (Result.studentId r) studentId) results in
    match studentResults with
    | [] => Return None
    | _ =>
      let* semesterGroups := groupLoop host studentResults [] in
      let semesterGPAs := map (semesterGPA host studentId) semesterGroups in
      let c :=
        calculateCGPA
          (map (fun s => Semester.mk (GPAResponse.totalUnits s)
                                     (GPAResponse.totalPoints s))
               semesterGPAs) in
      Return (Some (CGPAResponse.mk studentId
                (Student.mk (Student.id student) (Student.matricNo student)
                   (Student.fullName student) (Student.departmentId student)
                   (find (fun d => String.eqb (Department.id d)
                                              (Student.departmentId student))
                         departments))
                (JsArray.sort compareSemesters semesterGPAs)
                (CGPA.totalUnits c) (CGPA.totalPoints c) (CGPA.cgpa c)))
    end
  end.

(** The report line of one student in [getDepartmentReport]. *)
Definition studentReport (results : list Result.t) (level semester : number)
    (student : Student.t) : StudentReport.t :=
  let semesterResults :=
    filter (fun r =>
              String.eqb (Result.studentId r) (Student.id student)
              && eqb (Result.level r) level
              && eqb (Result.semester r) semester)
      results in
  let g := calculateGPA (scoredCourses semesterResults) in
  let allResults :=
    filter (fun r => String.eqb (Result.studentId r) (Student.id student))
      results in
  let c :=
    calculateCGPA
      [ Semester.mk
          (fold_left (fun sum r => sum + Result.courseUnit r) allResults 0)
          (fold_left (fun sum r => sum + Result.pxu r) allResults 0) ] in
  StudentReport.mk student (GPA.gpa g) (CGPA.cgpa c) semesterResults.

Definition getDepartmentReport (st : Storage.t) (departmentId : string)
    (level semester : number) : option DepartmentReport.t :=
  let departments := getDepartments st in
  match find (fun d => String.eqb (Department.id d) departmentId) departments with
  | None => None
  | Some department =>
    let students := getStudents st (Some departmentId) in
    let results := getFromStorage (Storage.results st) [] in
    let studentReports := map (studentReport results level semester) students in
    Some (DepartmentReport.mk department level semester
            (filter (fun s => match StudentReport.results s with
                              | [] => false
                              | _ => true
                              end)
               studentReports))
  end.

(** ** Data service: updates *)

Definition createStudent (host : Host) (student : Student.input) (w : World)
  : completion Student.t * World :=
  let students := getFromStorage (Storage.students (storage w)) [] in
  if existsb (fun s => String.eqb (Student.matricNo s) (Student.inMatricNo student))
       students
  then (Throw (mkError Error "Student with this matric number already exists"), w)
  else
    let (newId, w) := generateId host w in
    let newStudent :=
      Student.mk newId (Student.inMatricNo student) (Student.inFullName student)
        (Student.inDepartmentId student) (Student.inDepartment student) in
    let students := students ++ [newStudent] in
    (Return newStudent,
     mkWorld (Storage.setStudents students (storage w)) (idCalls w)).

(** The predicate given to [findIndex] in [saveResults]. *)
Definition sameResultKey (entry : Entry.t) (r : Result.t) : bool :=
  String.eqb (Result.studentId r) (Entry.studentId entry)
  && eqb (Result.level r) (Entry.level entry)
  && eqb (Result.semester r) (Entry.semester entry)
  && String.eqb (Result.courseCode r) (Entry.courseCode entry).

(** The [for] loop of [saveResults] over the entries left, with the local
    arrays [results] and [savedResults].  Reading [results[existingIndex].id]
    would throw a [TypeError] if the element were missing; the text of that
    message is the JavaScript engine's. *)
Fixpoint saveLoop (host : Host) (entries : list Entry.t)
    (results savedResults : list Result.t) (w : World)
  : completion (list Result.t * list Result.t) * World :=
  match entries with
  | [] => (Return (results, savedResults), w)
  | entry :: rest =>
    if ltb (Entry.score entry) 0 || ltb 100 (Entry.score entry) then
      (Throw (mkError Error
                ("Invalid score " ++ numberToString host (Entry.score entry)
                 ++ " for course " ++ Entry.courseCode entry)%string), w)
    else
      match scoreToGrade (Entry.score entry) with
      | Throw e => (Throw e, w)
      | Return grade =>
        match scoreToPoint (Entry.score entry) with
        | Throw e => (Throw e, w)
        | Return gradePoint =>
          let pxu := calculatePXU gradePoint (Entry.courseUnit entry) in
          let existingIndex := JsArray.findIndex (sameResultKey entry) results in
          let result (id : string) :=
            Result.mk id (Entry.studentId entry) (Entry.level entry)
              (Entry.semester entry) (Entry.courseCode entry)
              (Entry.courseUnit entry) (Entry.score entry) grade gradePoint pxu in
          match existingIndex with
          | Some i =>
            match nth_error results i with
            | Some existing =>
              let result := result (Result.id existing) in
              saveLoop host rest (JsArray.setAt i result results)
                (savedResults ++ [result]) w
            | None =>
              (Throw (mkError TypeError "Cannot read properties of undefined"), w)
            end
          | None =>
            let (id, w) := generateId host w in
            let result := result id in
            saveLoop host rest (results ++ [result]) (savedResults ++ [result]) w
          end
        end
      end
  end.

Definition saveResults (host : Host) (entries : list Entry.t) (w : World)
  : completion (list Result.t) * World :=
  let results := getFromStorage (Storage.results (storage w)) [] in
  match saveLoop host entries results [] w with
  | (Return (results, savedResults), w) =>
    (Return savedResults,
     mkWorld (Storage.setResults results (storage w)) (idCalls w))
  | (Throw e, w) => (Throw e, w)
  end.

(** ** Score entry form and report statistics *)

(** [numValue] of [handleScoreChange]; [None] is the empty string. *)
Definition numValue (host : Host) (value : string) : option number :=
  match value with
  | EmptyString => None
  | _ =>
    Some (Qmin 100 (Qmax 0 (or_number (option_map inject_Z (parseInt host value)) 0)))
  end.

(** [getGradePreview]; its argument is [None] for the empty string and its
    result [None] for [null]. *)
Definition getGradePreview (score : option number)
  : completion (option (string * number)) :=
  match score with
  | None => Return None
  | Some score =>
    if ltb score 0 || ltb 100 score then Return None
    else
      let* grade := scoreToGrade score in
      let* point := scoreToPoint score in
      Return (Some (grade, point))
  end.

(** The summary figures of the department report page. *)
Definition highestGPA (students : list StudentReport.t) : number :=
  JsArray.Math_max (map StudentReport.gpa students) 0.

Definition lowestGPA (students : list StudentReport.t) : number :=
  match map StudentReport.gpa students with
  | [] => 0
  | x :: xs => JsArray.Math_min x xs
  end.

(** ** Specification-side definitions for the data service *)

Definition inRange (entry : Entry.t) : Prop :=
  0 <= Entry.score entry <= 100.

(** The error [saveResults] throws for an entry it rejects. *)
Definition invalidScore (host : Host) (entry : Entry.t) : ErrorObject :=
  mkError Error
    ("Invalid score " ++ numberToString host (Entry.score entry)
     ++ " for course " ++ Entry.courseCode entry)%string.

(** The entry a stored result was made from. *)
Definition entryOf (r : Result.t) : Entry.t :=
  Entry.mk (Result.studentId r) (Result.level r) (Result.semester r)
    (Result.courseCode r) (Result.courseUnit r) (Result.score r).

(** The derived fields of a result are those its score and unit determine. *)
Definition derived (r : Result.t) : Prop :=
  scoreToGrade (Result.score r) = Return (Result.grade r)
  /\ scoreToPoint (Result.score r) = Return (Result.gradePoint r)
  /\ Result.pxu r = Result.gradePoint r * Result.courseUnit r.

(** No two results of the list are for the same student, level, semester and
    course. *)
Fixpoint uniqueKeys (results : list Result.t) : Prop :=
  match results with
  | [] => True
  | r :: rest =>
    Forall (fun r' => sameResultKey (entryOf r) r' = false) rest
    /\ uniqueKeys rest
  end.

(** The totals of a GPA result, as a semester aggregate. *)
Definition semesterAggregate (g : GPA.result) : Semester.aggregate :=
  Semester.mk (GPA.totalUnits g) (GPA.totalPoints g).

(** Two entries are for the same student, level, semester and course. *)
Definition sameEntryKey (a b : Entry.t) : bool :=
  String.eqb (Entry.studentId a) (Entry.studentId b)
  && eqb (Entry.level a) (Entry.level b)
  && eqb (Entry.semester a) (Entry.semester b)
  && String.eqb (Entry.courseCode a) (Entry.courseCode b).

(** [r] is the result [saveResults] makes from [entry]. *)
Definition madeFrom (entry : Entry.t) (r : Result.t) : Prop :=
  entryOf r = entry /\ derived r.

(** [r] carries the identifier of the result it replaces, if it replaces one. *)
Definition keepsId (entry : Entry.t) (r : Result.t) (results : list Result.t)
  : Prop :=
  forall i existing,
    JsArray.findIndex (sameResultKey entry) results = Some i ->
    nth_error results i = Some existing ->
    Result.id r = Result.id existing.

(** The update of the local array for one entry: replace the first result
    with the entry's key, or append. *)
Definition upsert (entry : Entry.t) (r : Result.t) (results : list Result.t)
  : list Result.t :=
  match JsArray.findIndex (sameResultKey entry) results with
  | Some i => JsArray.setAt i r results
  | None => results ++ [r]
  end.

(** [upserts entries results results' saved]: processing [entries] in order
    turns the array [results] into [results'] and produces [saved]. *)
Inductive upserts
  : list Entry.t -> list Result.t -> list Result.t -> list Result.t -> Prop :=
  | upserts_nil (results : list Result.t) : upserts [] results results []
  | upserts_cons (entry : Entry.t) (rest : list Entry.t) (r : Result.t)
      (results results' saved : list Result.t) :
      madeFrom entry r ->
      keepsId entry r results ->
      upserts rest (upsert entry r results) results' saved ->
      upserts (entry :: rest) results results' (r :: saved).

(** The selection of [getResults], as a predicate on results. *)
Definition inSemester (studentId : string) (level semester : number)
    (r : Result.t) : bool :=
  String.eqb (Result.studentId r) studentId
  && eqb (Result.level r) level
  && eqb (Result.semester r) semester.

(** The stored results, as every function of the service reads them. *)
Definition storedResults (st : Storage.t) : list Result.t :=
  getFromStorage (Storage.results st) [].

(** ** Sample data for the examples *)

Definition sampleHost : Host :=
  mkHost (fun n => String (ascii_of_nat (65 + n)) EmptyString)
         (fun q => if eqb q 1 then "1" else if eqb q 2 then "2"
                   else if eqb q 100 then "100" else "n")%string
         (fun key => if String.eqb key "100-1" then (100, 1)
                     else if String.eqb key "100-2" then (100, 2) else (0, 0))
         (fun _ => Some 57%Z).

Definition emptyStorage : Storage.t := Storage.mk None None None None None.

Definition freshWorld : World := mkWorld emptyStorage 0.

Definition entryMaths : Entry.t := Entry.mk "std1" 100 1 "MTH101" 2 72.
Definition entryPhysics : Entry.t := Entry.mk "std1" 100 1 "PHY101" 2 48.
Definition entryMathsAgain : Entry.t := Entry.mk "std1" 100 1 "MTH101" 2 55.
Definition entryOther : Entry.t := Entry.mk "std2" 100 1 "MTH101" 2 64.
Definition entryInvalid : Entry.t := Entry.mk "std1" 100 1 "BIO101" 2 101.

(** The results of one student, as [getStudentCGPA] and the department report
    select them. *)
Definition resultsOfStudent (st : Storage.t) (studentId : string)
  : list Result.t :=
  filter (fun r => String.eqb (Result.studentId r) studentId) (storedResults st).

(** The sum of [f] over all the results of all the groups of a map. *)
Definition sumGroups (f : Result.t -> number) (m : JsMap.t (list Result.t))
  : number :=
  sumOf (fun kv => sumOf f (snd kv)) m.

Definition entryChemistry : Entry.t := Entry.mk "std1" 100 2 "CHM101" 3 61.

Definition sampleStorage : Storage.t :=
  Storage.mk
    (Some [Department.mk "dept1" "ITH" "Information Technology"])
    None None
    (Some [Student.mk "std1" "2025/1111" "John Adebayo" "dept1" None;
           Student.mk "std2" "2025/2222" "Mary Okonkwo" "dept1" None;
           Student.mk "std5" "2025/5555" "Michael Obi" "dept2" None])
    (Storage.results (storage (snd
       (saveResults sampleHost
          [entryMaths; entryPhysics; entryChemistry; entryOther] freshWorld)))).



(** ** Binary64 arithmetic *)

(** The numbers of the code are IEEE-754 doubles.  A finite double is a
    rational [m * 2^e] with [|m| < 2^53] and [-1074 <= e]; the result of an
    arithmetic operation is the double nearest to the exact result, the even
    significand winning a tie. *)
Module Double.

(** For [0 < q], the exponent [n] with [2^n <= q < 2^(n+1)]. *)
Definition ilog2 (q : number) : Z :=
  if Qle_bool 1 q then Z.log2 (Qfloor q) else (- Z.log2_up (Qceiling (/ q)))%Z.

(** The integer nearest to [q], the even one of the two when [q] is halfway. *)
Definition nearestEven (q : number) : Z :=
  let f := Qfloor q in
  match Qcompare (q - inject_Z f) (1 # 2) with
  | Lt => f
  | Gt => (f + 1)%Z
  | Eq => if Z.even f then f else (f + 1)%Z
  end.

(** The exponent of the last place of the doubles around [q]: 53 significant
    bits, and no exponent below that of the subnormal numbers. *)
Definition exponent (q : number) : Z := Z.max (ilog2 (Qabs q) - 52) (-1074).

(** The double nearest to [q]. *)
Definition round (q : number) : number :=
  if Qeq_bool q 0 then 0
  else inject_Z (nearestEven (q / 2 ^ exponent q)) * 2 ^ exponent q.

(** [x + y], [x * y] and [x / y] on doubles. *)
Definition add (x y : number) : number := round (x + y).
Definition mul (x y : number) : number := round (x * y).
Definition div (x y : number) : number := round (x / y).

Definition calculatePXU (gradePoint courseUnit : number) : number :=
  mul gradePoint courseUnit.

(** [Math.round] returns an integer, which is a double whenever its argument
    is one, so that [Js.Math_round] needs no rounding of its own. *)
Definition calculateGPA (results : list ScoredCourse) : GPA.result :=
  match results with
  | [] => GPA.mk 0 0 0
  | _ =>
    let totalUnits := fold_left (fun sum r => add sum (courseUnit r)) results 0 in
    let totalPoints :=
      fold_left (fun sum r => add sum (mul (gradePoint r) (courseUnit r)))
        results 0 in
    if eqb totalUnits 0 then GPA.mk 0 0 0
    else
      let gpa := div totalPoints totalUnits in
      GPA.mk (div (Math_round (mul gpa 100)) 100) totalUnits totalPoints
  end.

Definition calculateCGPA (semesterResults : list Semester.aggregate) : CGPA.result :=
  match semesterResults with
  | [] => CGPA.mk 0 0 0
  | _ =>
    let totalUnits :=
      fold_left (fun sum s => add sum (Semester.totalUnits s)) semesterResults 0 in
    let totalPoints :=
      fold_left (fun sum s => add sum (Semester.totalPoints s)) semesterResults 0 in
    if eqb totalUnits 0 then CGPA.mk 0 0 0
    else
      let cgpa := div totalPoints totalUnits in
      CGPA.mk (div (Math_round (mul cgpa 100)) 100) totalUnits totalPoints
  end.

(** The queries of the data service that compute averages, over doubles. *)
Definition getStudentGPA (st : Storage.t) (studentId : string)
    (level semester : option number) : option GPAResponse.t :=
  let results := getFromStorage (Storage.results st) [] in
  let filteredResults :=
    filter (fun r => String.eqb (Result.studentId r) studentId) results in
  let filteredResults :=
    match level with
    | Some l => filter (fun r => eqb (Result.level r) l) filteredResults
    | None => filteredResults
    end in
  let filteredResults :=
    match semester with
    | Some s => filter (fun r => eqb (Result.semester r) s) filteredResults
    | None => filteredResults
    end in
  match filteredResults with
  | [] => None
  | _ =>
    let g := calculateGPA (scoredCourses filteredResults) in
    Some (GPAResponse.mk studentId (or_number level 0) (or_number semester 0)
            filteredResults (GPA.totalUnits g) (GPA.totalPoints g) (GPA.gpa g))
  end.

Definition semesterGPA (host : Host) (studentId : string)
    (group : string * list Result.t) : GPAResponse.t :=
  let (key, semResults) := group in
  let (level, semester) := parseKey host key in
  let g := calculateGPA (scoredCourses semResults) in
  GPAResponse.mk studentId level semester semResults
    (GPA.totalUnits g) (GPA.totalPoints g) (GPA.gpa g).

Definition getStudentCGPA (host : Host) (st : Storage.t) (studentId : string)
  : completion (option CGPAResponse.t) :=
  let students := getFromStorage (Storage.students st) [] in
  let results := getFromStorage (Storage.results st) [] in
  let departments := getDepartments st in
  match find (fun s => String.eqb (Student.id s) studentId) students with
  | None => Return None
  | Some student =>
    let studentResults :=
      filter (fun r => String.eqb (Result.studentId r) studentId) results in
    match studentResults with
    | [] => Return None
    | _ =>
      let* semesterGroups := groupLoop host studentResults [] in
      let semesterGPAs := map (semesterGPA host studentId) semesterGroups in
      let c :=
        calculateCGPA
          (map (fun s => Semester.mk (GPAResponse.totalUnits s)
                                     (GPAResponse.totalPoints s))
               semesterGPAs) in
      Return (Some (CGPAResponse.mk studentId
                (Student.mk (Student.id student) (Student.matricNo student)
                   (Student.fullName student) (Student.departmentId student)
                   (find (fun d => String.eqb (Department.id d)
                                              (Student.departmentId student))
                         departments))
                (JsArray.sort compareSemesters semesterGPAs)
                (CGPA.totalUnits c) (CGPA.totalPoints c) (CGPA.cgpa c)))
    end
  end.

Definition studentReport (results : list Result.t) (level semester : number)
    (student : Student.t) : StudentReport.t :=
  let semesterResults :=
    filter (fun r =>
              String.eqb (Result.studentId r) (Student.id student)
              && eqb (Result.level r) level
              && eqb (Result.semester r) semester)
      results in
  let g := calculateGPA (scoredCourses semesterResults) in
  let allResults :=
    filter (fun r => String.eqb (Result.studentId r) (Student.id student))
      results in
  let c :=
    calculateCGPA
      [ Semester.mk
          (fold_left (fun sum r => add sum (Result.courseUnit r)) allResults 0)
          (fold_left (fun sum r => add sum (Result.pxu r)) allResults 0) ] in
  StudentReport.mk student (GPA.gpa g) (CGPA.cgpa c) semesterResults.

Definition getDepartmentReport (st : Storage.t) (departmentId : string)
    (level semester : number) : option DepartmentReport.t :=
  let departments := getDepartments st in
  match find (fun d => String.eqb (Department.id d) departmentId) departments with
  | None => None
  | Some department =>
    let students := getStudents st (Some departmentId) in
    let results := getFromStorage (Storage.results st) [] in
    let studentReports := map (studentReport results level semester) students in
    Some (DepartmentReport.mk department level semester
            (filter (fun s => match StudentReport.results s with
                              | [] => false
                              | _ => true
                              end)
               studentReports))
  end.

End Double.

(** ** Specification-side definitions for the averages *)

(** A whole number: a non-negative integer, as the units and grade points of
    the data model are. *)
Definition isWhole (x : number) : bool :=
  Qle_bool 0 x && Qeq_bool (inject_Z (Qfloor x)) x.

Definition wholeCourse (r : ScoredCourse) : bool :=
  isWhole (gradePoint r) && isWhole (courseUnit r).

Definition wholeSemester (s : Semester.aggregate) : bool :=
  isWhole (Semester.totalUnits s) && isWhole (Semester.totalPoints s).

(** [Number.MAX_SAFE_INTEGER], [2^53 - 1]: every whole number up to it is a
    double. *)
Definition MAX_SAFE_INTEGER : number := 9007199254740991.

(** The largest point total the rounding of an average is stated for, [2^43]:
    up to it the rounding errors of the quotient and of its product with 100
    stay below the distance between that product and the nearest half
    integer. *)
Definition maxPoints : number := 8796093022208.

(** The last step of both averages,
    [Math.round((totalPoints / totalUnits) * 100) / 100]. *)
Definition roundedAverage (totalPoints totalUnits : number) : number :=
  Double.div (Math_round (Double.mul (Double.div totalPoints totalUnits) 100)) 100.

(** [x * 100] is halfway between two integers, so that [x] has two nearest
    numbers with two decimal places. *)
Definition isTie (x : number) : Prop :=
  exists n : Z, x * 100 == inject_Z n + (1 # 2).

(** A stored result whose unit and grade point are whole and whose [pxu] is
    the product [saveResults] computes. *)
Definition wholeResult (r : Result.t) : Prop :=
  isWhole (Result.gradePoint r) = true
  /\ isWhole (Result.courseUnit r) = true
  /\ Result.pxu r == Double.calculatePXU (Result.gradePoint r) (Result.courseUnit r).
(** ** Comparisons on numbers *)

Lemma ltb_lt (x y : number) : ltb x y = true <-> x < y.
Proof.
  unfold ltb. rewrite negb_true_iff. split; intro H.
  - apply Qnot_le_lt. intro Hle. apply Qle_bool_iff in Hle. congruence.
  - destruct (Qle_bool y x) eqn:E; [|reflexivity].
    apply Qle_bool_iff in E. exfalso. apply (Qlt_not_le _ _ H E).
Qed.

Lemma ltb_ge (x y : number) : ltb x y = false <-> y <= x.
Proof.
  unfold ltb. rewrite negb_false_iff. apply Qle_bool_iff.
Qed.

Lemma geb_le (x y : number) : geb x y = true <-> y <= x.
Proof. apply Qle_bool_iff. Qed.

Lemma geb_lt (x y : number) : geb x y = false <-> x < y.
Proof.
  unfold geb. split; intro H.
  - apply Qnot_le_lt. intro Hle. apply Qle_bool_iff in Hle. congruence.
  - destruct (Qle_bool y x) eqn:E; [|reflexivity].
    apply Qle_bool_iff in E. exfalso. apply (Qlt_not_le _ _ H E).
Qed.

Lemma leb_le (x y : number) : leb x y = true <-> x <= y.
Proof. apply Qle_bool_iff. Qed.

Lemma leb_gt (x y : number) : leb x y = false <-> y < x.
Proof. apply (geb_lt y x). Qed.

(** The range check of [scoreToGrade], as a proposition. *)
Lemma range_check_true (score : number) :
  ltb score 0 || ltb 100 score = true <-> score < 0 \/ 100 < score.
Proof. rewrite orb_true_iff, !ltb_lt. tauto. Qed.

Lemma range_check_false (score : number) :
  ltb score 0 || ltb 100 score = false <-> 0 <= score <= 100.
Proof. rewrite orb_false_iff, !ltb_ge. tauto. Qed.

(** Rewrites every comparison of the goal whose outcome the context decides. *)
Ltac decide_cmp :=
  repeat match goal with
  | |- context [geb ?x ?y] =>
      first [ rewrite (proj2 (geb_le x y)) by lra
            | rewrite (proj2 (geb_lt x y)) by lra ]
  | |- context [leb ?x ?y] =>
      first [ rewrite (proj2 (leb_le x y)) by lra
            | rewrite (proj2 (leb_gt x y)) by lra ]
  | |- context [ltb ?x ?y] =>
      first [ rewrite (proj2 (ltb_lt x y)) by lra
            | rewrite (proj2 (ltb_ge x y)) by lra ]
  end.

(** ** Integer scores *)

Lemma bandMatches_int (z lo hi : Z) (l : string) (p : number) :
  bandMatches (inject_Z z) (mkBand (inject_Z lo) (inject_Z hi) l p)
  = ((lo <=? z)%Z && (z <=? hi)%Z).
Proof.
  unfold bandMatches, geb, leb, Qle_bool; simpl. now rewrite !Z.mul_1_r.
Qed.

(** Presents the bounds of the table as injected integers. *)
Ltac int_table :=
  unfold GRADING_SCALE;
  change (70%Q) with (inject_Z 70); change (100%Q) with (inject_Z 100);
  change (60%Q) with (inject_Z 60); change (69%Q) with (inject_Z 69);
  change (50%Q) with (inject_Z 50); change (59%Q) with (inject_Z 59);
  change (45%Q) with (inject_Z 45); change (49%Q) with (inject_Z 49);
  change (40%Q) with (inject_Z 40); change (44%Q) with (inject_Z 44);
  change (mkBand 0 39) with (mkBand (inject_Z 0) (inject_Z 39)).

Ltac split_leb :=
  repeat match goal with
  | |- context [(?a <=? ?b)%Z] => destruct (Z.leb_spec a b); try lia
  end.

Lemma filter_bands_int (z : Z) :
  (0 <= z <= 100)%Z ->
  filter (bandMatches (inject_Z z)) GRADING_SCALE = [bandOfInt z].
Proof.
  intros Hz. unfold bandOfInt. int_table.
  cbn [filter]. rewrite !bandMatches_int.
  split_leb; reflexivity.
Qed.

Lemma find_bands_int (z : Z) :
  (0 <= z <= 100)%Z ->
  find (bandMatches (inject_Z z)) GRADING_SCALE = Some (bandOfInt z).
Proof.
  intros Hz. unfold bandOfInt. int_table.
  cbn [find]. rewrite !bandMatches_int.
  split_leb; reflexivity.
Qed.

Lemma grade_bandOfInt (z : Z) : grade (bandOfInt z) = letterOfInt z.
Proof. unfold bandOfInt, letterOfInt. split_leb; reflexivity. Qed.

Lemma range_check_int (z : Z) :
  (0 <= z <= 100)%Z -> ltb (inject_Z z) 0 || ltb 100 (inject_Z z) = false.
Proof.
  intros Hz. apply range_check_false.
  change (0%Q) with (inject_Z 0). change (100%Q) with (inject_Z 100).
  rewrite <- !Zle_Qle. lia.
Qed.

Lemma scoreToGrade_int (z : Z) :
  (0 <= z <= 100)%Z -> scoreToGrade (inject_Z z) = Return (letterOfInt z).
Proof.
  intros Hz. unfold scoreToGrade.
  rewrite (range_check_int z Hz), (find_bands_int z Hz). cbn [option_map].
  rewrite grade_bandOfInt. unfold letterOfInt. split_leb; reflexivity.
Qed.

Lemma gradeToPoint_letterOfInt (z : Z) :
  gradeToPoint (letterOfInt z) = point (bandOfInt z).
Proof. unfold bandOfInt, letterOfInt. split_leb; reflexivity. Qed.

Lemma scoreToPoint_int (z : Z) :
  (0 <= z <= 100)%Z -> scoreToPoint (inject_Z z) = Return (point (bandOfInt z)).
Proof.
  intros Hz. unfold scoreToPoint. rewrite (scoreToGrade_int z Hz). cbn [bind].
  now rewrite gradeToPoint_letterOfInt.
Qed.

(** [scoreToPoint] is [scoreToGrade] followed by the total function
    [gradeToPoint]: it throws exactly what [scoreToGrade] throws. *)
Lemma scoreToPoint_throw_iff (score : number) (e : ErrorObject) :
  scoreToPoint score = Throw e <-> scoreToGrade score = Throw e.
Proof.
  unfold scoreToPoint. destruct (scoreToGrade score); cbn [bind];
    split; intro H; congruence.
Qed.

Lemma scoreToGrade_out_of_range (score : number) :
  score < 0 \/ 100 < score ->
  scoreToGrade score = Throw (mkError Error "Score must be between 0 and 100").
Proof.
  intros H. unfold scoreToGrade. now rewrite (proj2 (range_check_true score) H).
Qed.

Lemma scoreToGrade_in_range (score : number) :
  0 <= score <= 100 ->
  scoreToGrade score =
  Return (or_string (option_map grade (find (bandMatches score) GRADING_SCALE)) "F").
Proof.
  intros H. unfold scoreToGrade. now rewrite (proj2 (range_check_false score) H).
Qed.

(** ** Scores between two bands *)

Lemma gap_cases (score : number) :
  inGap score <->
  (69 < score /\ score < 70) \/ (59 < score /\ score < 60) \/
  (49 < score /\ score < 50) \/ (44 < score /\ score < 45) \/
  (39 < score /\ score < 40).
Proof.
  unfold inGap. cbn [gaps GRADING_SCALE minScore maxScore]. split.
  - intros (lo & hi & Hin & Hlo & Hhi). cbn [In] in Hin.
    repeat (destruct Hin as [E | Hin]; [inversion E; subst lo hi; tauto | ]).
    contradiction.
  - intros [H | [H | [H | [H | H]]]];
      [ exists 69, 70 | exists 59, 60 | exists 49, 50 | exists 44, 45 | exists 39, 40 ];
      cbn [In]; tauto.
Qed.

Lemma between_consecutive_not_int (score : number) (n z : Z) :
  inject_Z n < score -> score < inject_Z (n + 1) -> ~ score == inject_Z z.
Proof.
  intros Hlo Hhi Heq. rewrite Heq in Hlo, Hhi.
  rewrite <- Zlt_Qlt in Hlo, Hhi. lia.
Qed.

Lemma find_in_gap (score : number) :
  inGap score -> find (bandMatches score) GRADING_SCALE = None.
Proof.
  intros H. apply gap_cases in H.
  unfold GRADING_SCALE, bandMatches. cbn [find minScore maxScore].
  destruct H as [H | [H | [H | [H | H]]]]; destruct H as [Hlo Hhi];
    decide_cmp; reflexivity.
Qed.

(** ** The grading scale and the score conversions *)

(** C3.  For every integer score in [0,100] exactly one entry of
    [GRADING_SCALE] satisfies [minScore <= score <= maxScore]; the table is
    the six bands 70-100 A/5, 60-69 B/4, 50-59 C/3, 45-49 D/2, 40-44 E/1 and
    0-39 F/0, and the scores on either side of each boundary (39/40, 44/45,
    49/50, 59/60, 69/70) select the bands listed. *)
Theorem grading_scale_band_coverage (score : Z) :
  (0 <= score <= 100)%Z ->
  (exists g, filter (bandMatches (inject_Z score)) GRADING_SCALE = [g])
  /\ map (fun g => (minScore g, maxScore g, grade g, point g)) GRADING_SCALE
     = [ (70, 100, "A"%string, 5); (60, 69, "B"%string, 4);
         (50, 59, "C"%string, 3); (45, 49, "D"%string, 2);
         (40, 44, "E"%string, 1); (0, 39, "F"%string, 0) ]
  /\ filter (bandMatches 39) GRADING_SCALE = [mkBand 0 39 "F" 0]
  /\ filter (bandMatches 40) GRADING_SCALE = [mkBand 40 44 "E" 1]
  /\ filter (bandMatches 44) GRADING_SCALE = [mkBand 40 44 "E" 1]
  /\ filter (bandMatches 45) GRADING_SCALE = [mkBand 45 49 "D" 2]
  /\ filter (bandMatches 49) GRADING_SCALE = [mkBand 45 49 "D" 2]
  /\ filter (bandMatches 50) GRADING_SCALE = [mkBand 50 59 "C" 3]
  /\ filter (bandMatches 59) GRADING_SCALE = [mkBand 50 59 "C" 3]
  /\ filter (bandMatches 60) GRADING_SCALE = [mkBand 60 69 "B" 4]
  /\ filter (bandMatches 69) GRADING_SCALE = [mkBand 60 69 "B" 4]
  /\ filter (bandMatches 70) GRADING_SCALE = [mkBand 70 100 "A" 5]
  /\ filter (bandMatches 0) GRADING_SCALE = [mkBand 0 39 "F" 0]
  /\ filter (bandMatches 100) GRADING_SCALE = [mkBand 70 100 "A" 5].
Proof.
  intros Hz. split.
  - exists (bandOfInt score). now apply filter_bands_int.
  - repeat split; reflexivity.
Qed.

Lemma grading_scale_band_coverage_witness :
  exists g, filter (bandMatches (inject_Z 57)) GRADING_SCALE = [g].
Proof.
  apply (grading_scale_band_coverage 57). lia.
Defined.

(** C4, as the code has it.  For every score below 0 or above 100,
    [scoreToGrade] and [scoreToPoint] throw an [Error] (built with
    [new Error], not a [RangeError]) whose message is
    "Score must be between 0 and 100"; the check is made in [scoreToGrade]
    only, and [scoreToPoint] throws exactly when, and what, [scoreToGrade]
    throws; for every score in [0,100] neither throws. *)
Theorem score_range_validation (score : number) :
  (score < 0 \/ 100 < score ->
     scoreToGrade score = Throw (mkError Error "Score must be between 0 and 100")
     /\ scoreToPoint score = Throw (mkError Error "Score must be between 0 and 100"))
  /\ (forall e, scoreToPoint score = Throw e <-> scoreToGrade score = Throw e)
  /\ (0 <= score <= 100 ->
     ~ throws (scoreToGrade score) /\ ~ throws (scoreToPoint score)).
Proof.
  split; [| split].
  - intros H. pose proof (scoreToGrade_out_of_range score H) as Hg.
    split; [exact Hg | now apply scoreToPoint_throw_iff].
  - intros e. apply scoreToPoint_throw_iff.
  - intros H. pose proof (scoreToGrade_in_range score H) as Hg.
    split; intros [e He].
    + congruence.
    + apply scoreToPoint_throw_iff in He. congruence.
Qed.

Lemma score_range_validation_witness :
  (scoreToGrade 101 = Throw (mkError Error "Score must be between 0 and 100")
   /\ scoreToPoint 101 = Throw (mkError Error "Score must be between 0 and 100"))
  /\ (~ throws (scoreToGrade 55) /\ ~ throws (scoreToPoint 55)).
Proof.
  split.
  - apply (proj1 (score_range_validation 101)). right. reflexivity.
  - apply (proj2 (proj2 (score_range_validation 55))).
    split; discriminate.
Defined.

(** The error thrown for the score -1 is not a [RangeError]. *)
Lemma score_range_error_class_counterexample :
  -1 < 0 /\ ~ throwsClass RangeError (scoreToGrade (-1))
         /\ ~ throwsClass RangeError (scoreToPoint (-1)).
Proof.
  split; [reflexivity |].
  split; intros (e & He & Hc); vm_compute in He; inversion He; subst e;
    discriminate Hc.
Qed.

(** C7.  On integer scores in [0,100] [scoreToPoint] is monotonically
    non-decreasing, and its value is one of 0, 1, 2, 3, 4, 5. *)
Theorem scoreToPoint_monotone (s1 s2 : Z) :
  (0 <= s1)%Z -> (s1 <= s2)%Z -> (s2 <= 100)%Z ->
  exists p1 p2,
    scoreToPoint (inject_Z s1) = Return p1
    /\ scoreToPoint (inject_Z s2) = Return p2
    /\ p1 <= p2
    /\ In p1 [0; 1; 2; 3; 4; 5] /\ In p2 [0; 1; 2; 3; 4; 5].
Proof.
  intros H0 H12 H100.
  exists (point (bandOfInt s1)), (point (bandOfInt s2)).
  rewrite !scoreToPoint_int by lia.
  split; [reflexivity | split; [reflexivity |]].
  unfold bandOfInt. split_leb; cbn [point In];
    (split; [discriminate | split; tauto]).
Qed.

Lemma scoreToPoint_monotone_witness :
  exists p1 p2,
    scoreToPoint (inject_Z 44) = Return p1
    /\ scoreToPoint (inject_Z 45) = Return p2
    /\ p1 <= p2
    /\ In p1 [0; 1; 2; 3; 4; 5] /\ In p2 [0; 1; 2; 3; 4; 5].
Proof.
  apply (scoreToPoint_monotone 44 45); lia.
Defined.

(** C8.  For every score in [0,100], [scoreToPoint score] is
    [gradeToPoint] applied to the letter [scoreToGrade score] returns; and at
    the minimum score of every band [scoreToGrade] returns the band's letter,
    which [gradeToPoint] maps back to the band's point. *)
Theorem scoreToPoint_composition (score : number) :
  0 <= score <= 100 ->
  (exists g, scoreToGrade score = Return g
             /\ scoreToPoint score = Return (gradeToPoint g))
  /\ Forall (fun b => scoreToGrade (minScore b) = Return (grade b)
                      /\ gradeToPoint (grade b) = point b
                      /\ scoreToPoint (minScore b) = Return (point b))
            GRADING_SCALE
  /\ scoreToGrade 70 = Return "A"%string /\ gradeToPoint "A" = 5.
Proof.
  intros H. split; [| split].
  - eexists. unfold scoreToPoint. rewrite (scoreToGrade_in_range score H).
    split; reflexivity.
  - unfold GRADING_SCALE. repeat constructor.
  - split; reflexivity.
Qed.

Lemma scoreToPoint_composition_witness :
  exists g, scoreToGrade 62.5 = Return g
            /\ scoreToPoint 62.5 = Return (gradeToPoint g).
Proof.
  apply (scoreToPoint_composition 62.5). split; discriminate.
Defined.

(** C10.  A score strictly between the top of one band and the bottom of the
    next one up (so: in [0,100] and not an integer) matches no entry of
    [GRADING_SCALE]; [scoreToGrade] returns the default "F" and
    [scoreToPoint] returns 0, without throwing. *)
Theorem gap_score_defaults_to_F (score : number) :
  inGap score ->
  find (bandMatches score) GRADING_SCALE = None
  /\ scoreToGrade score = Return "F"%string
  /\ scoreToPoint score = Return 0
  /\ 0 <= score <= 100
  /\ forall z : Z, ~ score == inject_Z z.
Proof.
  intros H. pose proof (find_in_gap score H) as Hf.
  assert (Hr : 0 <= score <= 100 /\ forall z : Z, ~ score == inject_Z z).
  { apply gap_cases in H.
    destruct H as [H | [H | [H | [H | H]]]]; destruct H as [Hlo Hhi];
      (split; [lra | intro z]);
      [ apply (between_consecutive_not_int score 69 z)
      | apply (between_consecutive_not_int score 59 z)
      | apply (between_consecutive_not_int score 49 z)
      | apply (between_consecutive_not_int score 44 z)
      | apply (between_consecutive_not_int score 39 z) ]; assumption. }
  destruct Hr as [Hr Hni].
  assert (Hg : scoreToGrade score = Return "F"%string).
  { rewrite (scoreToGrade_in_range score Hr), Hf. reflexivity. }
  repeat split; try assumption; try tauto.
  unfold scoreToPoint. rewrite Hg. reflexivity.
Qed.

Lemma gap_score_defaults_to_F_witness :
  (scoreToGrade 39.5 = Return "F"%string /\ scoreToPoint 39.5 = Return 0)
  /\ (scoreToGrade 44.3 = Return "F"%string /\ scoreToPoint 44.3 = Return 0)
  /\ (scoreToGrade 49.9 = Return "F"%string /\ scoreToPoint 49.9 = Return 0)
  /\ (scoreToGrade 59.5 = Return "F"%string /\ scoreToPoint 59.5 = Return 0)
  /\ (scoreToGrade 69.5 = Return "F"%string /\ scoreToPoint 69.5 = Return 0).
Proof.
  assert (G : forall lo hi score, In (lo, hi) (gaps GRADING_SCALE) ->
              lo < score -> score < hi ->
              scoreToGrade score = Return "F"%string
              /\ scoreToPoint score = Return 0).
  { intros lo hi score Hin Hlo Hhi.
    destruct (gap_score_defaults_to_F score) as (_ & Hg & Hp & _).
    - exists lo, hi. tauto.
    - tauto. }
  split; [| split; [| split; [| split]]].
  - apply (G 39 40 39.5); [cbn; tauto | reflexivity | reflexivity].
  - apply (G 44 45 44.3); [cbn; tauto | reflexivity | reflexivity].
  - apply (G 49 50 49.9); [cbn; tauto | reflexivity | reflexivity].
  - apply (G 59 60 59.5); [cbn; tauto | reflexivity | reflexivity].
  - apply (G 69 70 69.5); [cbn; tauto | reflexivity | reflexivity].
Defined.

(** ** Grade letters *)

Lemma upper_ascii_idem (c : ascii) : upper_ascii (upper_ascii c) = upper_ascii c.
Proof. destruct c as [[] [] [] [] [] [] [] []]; reflexivity. Qed.

Lemma upper_lower_ascii (c : ascii) : upper_ascii (lower_ascii c) = upper_ascii c.
Proof. destruct c as [[] [] [] [] [] [] [] []]; reflexivity. Qed.

Lemma toUpperCase_idem (s : string) : toUpperCase (toUpperCase s) = toUpperCase s.
Proof.
  induction s as [| c s IH]; cbn [toUpperCase]; [reflexivity |].
  now rewrite upper_ascii_idem, IH.
Qed.

Lemma toUpperCase_toLowerCase (s : string) :
  toUpperCase (toLowerCase s) = toUpperCase s.
Proof.
  induction s as [| c s IH]; cbn [toUpperCase toLowerCase]; [reflexivity |].
  now rewrite upper_lower_ascii, IH.
Qed.

(** [gradeToPoint] depends on its argument through its upper-case form only. *)
Lemma gradeToPoint_upper (s t : string) :
  toUpperCase s = toUpperCase t -> gradeToPoint s = gradeToPoint t.
Proof. intros H. unfold gradeToPoint. now rewrite H. Qed.

Lemma gradeToPoint_band (letter : string) (b : GradeBand) :
  In b GRADING_SCALE -> toUpperCase letter = grade b ->
  gradeToPoint letter = point b.
Proof.
  intros Hin Hu. unfold gradeToPoint. rewrite Hu.
  unfold GRADING_SCALE in Hin. cbn [In] in Hin.
  repeat (destruct Hin as [E | Hin]; [subst b; reflexivity |]).
  contradiction.
Qed.

Lemma gradeToPoint_unknown (letter : string) :
  ~ In (toUpperCase letter) (map grade GRADING_SCALE) -> gradeToPoint letter = 0.
Proof.
  intros Hn. unfold gradeToPoint, GRADING_SCALE. cbn [find grade].
  repeat match goal with
  | |- context [String.eqb ?a ?b] =>
      destruct (String.eqb_spec a b) as [E | _];
      [exfalso; apply Hn; rewrite <- E; cbn; auto 10 |]
  end.
  reflexivity.
Qed.

(** C9.  [gradeToPoint] looks the letter up without regard to case: the
    lower-case and the upper-case form of a string give the point the string
    gives, a string whose upper-case form is the letter of a band gives that
    band's point (so "a" and "A" both give 5), and a string whose
    upper-case form is no band's letter (such as "Z") gives 0.  The function
    is total: it returns a number and has no throwing path. *)
Theorem gradeToPoint_case_insensitive (letter : string) :
  gradeToPoint (toUpperCase letter) = gradeToPoint letter
  /\ gradeToPoint (toLowerCase letter) = gradeToPoint letter
  /\ (forall b, In b GRADING_SCALE -> toUpperCase letter = grade b ->
                gradeToPoint letter = point b)
  /\ (~ In (toUpperCase letter) (map grade GRADING_SCALE) ->
      gradeToPoint letter = 0)
  /\ gradeToPoint "a" = 5 /\ gradeToPoint "A" = 5 /\ gradeToPoint "Z" = 0.
Proof.
  split; [| split; [| split; [| split]]].
  - apply gradeToPoint_upper, toUpperCase_idem.
  - apply gradeToPoint_upper, toUpperCase_toLowerCase.
  - intros b. apply gradeToPoint_band.
  - apply gradeToPoint_unknown.
  - repeat split; reflexivity.
Qed.

Lemma gradeToPoint_case_insensitive_witness :
  gradeToPoint "c" = 3 /\ gradeToPoint "zz" = 0.
Proof.
  split.
  - apply (proj1 (proj2 (proj2 (gradeToPoint_case_insensitive "c")))
             (mkBand 50 59 "C" 3)).
    + cbn. tauto.
    + reflexivity.
  - apply (proj1 (proj2 (proj2 (proj2 (gradeToPoint_case_insensitive "zz"))))).
    cbn. intros [H | [H | [H | [H | [H | [H | H]]]]]];
      try discriminate H; exact H.
Defined.

(** ** Class of degree *)

(** C5.  [getClassOfDegree] is a descending ladder in which the first
    threshold reached decides: at least 4.50 gives "First Class Honours",
    otherwise at least 3.50 gives "Second Class Upper", otherwise at least
    2.50 gives "Second Class Lower", otherwise at least 1.50 gives
    "Third Class", otherwise at least 1.00 gives "Pass", and anything below
    gives "Fail"; 4.50 is a first class and 4.49 a second class upper. *)
Theorem getClassOfDegree_ladder (cgpa : number) :
  (4.50 <= cgpa -> getClassOfDegree cgpa = "First Class Honours"%string)
  /\ (cgpa < 4.50 -> 3.50 <= cgpa ->
      getClassOfDegree cgpa = "Second Class Upper"%string)
  /\ (cgpa < 3.50 -> 2.50 <= cgpa ->
      getClassOfDegree cgpa = "Second Class Lower"%string)
  /\ (cgpa < 2.50 -> 1.50 <= cgpa ->
      getClassOfDegree cgpa = "Third Class"%string)
  /\ (cgpa < 1.50 -> 1.00 <= cgpa -> getClassOfDegree cgpa = "Pass"%string)
  /\ (cgpa < 1.00 -> getClassOfDegree cgpa = "Fail"%string)
  /\ getClassOfDegree 4.50 = "First Class Honours"%string
  /\ getClassOfDegree 4.49 = "Second Class Upper"%string.
Proof.
  unfold getClassOfDegree.
  repeat match goal with |- _ /\ _ => split end;
    try reflexivity; intros; decide_cmp; reflexivity.
Qed.

Lemma getClassOfDegree_ladder_witness :
  getClassOfDegree 5 = "First Class Honours"%string
  /\ getClassOfDegree 3.50 = "Second Class Upper"%string
  /\ getClassOfDegree 3.49 = "Second Class Lower"%string
  /\ getClassOfDegree 1.50 = "Third Class"%string
  /\ getClassOfDegree 1.00 = "Pass"%string
  /\ getClassOfDegree 0.99 = "Fail"%string.
Proof.
  split; [| split; [| split; [| split; [| split]]]].
  - apply (proj1 (getClassOfDegree_ladder 5)). discriminate.
  - apply (proj1 (proj2 (getClassOfDegree_ladder 3.50)));
      [reflexivity | discriminate].
  - apply (proj1 (proj2 (proj2 (getClassOfDegree_ladder 3.49))));
      [reflexivity | discriminate].
  - apply (proj1 (proj2 (proj2 (proj2 (getClassOfDegree_ladder 1.50)))));
      [reflexivity | discriminate].
  - apply (proj1 (proj2 (proj2 (proj2 (proj2 (getClassOfDegree_ladder 1.00))))));
      [reflexivity | discriminate].
  - apply (proj1 (proj2 (proj2 (proj2 (proj2 (proj2
             (getClassOfDegree_ladder 0.99))))))).
    reflexivity.
Defined.

(** ** Sums and rounding *)

Lemma fold_left_sumOf {A : Type} (f : A -> number) (l : list A) (a : number) :
  fold_left (fun sum x => sum + f x) l a == a + sumOf f l.
Proof.
  revert a. induction l as [| x l IH]; intros a; cbn [fold_left sumOf].
  - ring.
  - rewrite IH. ring.
Qed.

Lemma reduce_sumOf {A : Type} (f : A -> number) (l : list A) :
  fold_left (fun sum x => sum + f x) l 0 == sumOf f l.
Proof. rewrite fold_left_sumOf. ring. Qed.

Lemma eqb_true (x y : number) : eqb x y = true <-> x == y.
Proof. apply Qeq_bool_iff. Qed.

Lemma eqb_false (x y : number) : eqb x y = false <-> ~ x == y.
Proof.
  unfold eqb. split.
  - apply Qeq_bool_neq.
  - intros H. destruct (Qeq_bool x y) eqn:E; [| reflexivity].
    apply Qeq_bool_iff in E. contradiction.
Qed.

Lemma round2_comp (x y : number) : x == y -> round2 x == round2 y.
Proof.
  intros H. unfold round2.
  assert (E : Qfloor (x * 100 + (1 # 2)) = Qfloor (y * 100 + (1 # 2))).
  { apply Qfloor_comp. rewrite H. reflexivity. }
  rewrite E. reflexivity.
Qed.

Lemma round2_isRounded2 (x : number) : isRounded2 x (round2 x).
Proof.
  unfold isRounded2, round2. split.
  - exists (Qfloor (x * 100 + (1 # 2))). reflexivity.
  - set (k := Qfloor (x * 100 + (1 # 2))).
    pose proof (Qfloor_le (x * 100 + (1 # 2))) as Hlo.
    pose proof (Qlt_floor (x * 100 + (1 # 2))) as Hhi.
    fold k in Hlo, Hhi. rewrite inject_Z_plus in Hhi.
    change (inject_Z 1) with 1 in Hhi.
    apply Qabs_Qle_condition. split.
    + assert (inject_Z k / 100 - x == (inject_Z k - x * 100) / 100) as ->
        by (field).
      apply Qle_shift_div_l; [reflexivity |]. lra.
    + assert (inject_Z k / 100 - x == (inject_Z k - x * 100) / 100) as ->
        by (field).
      apply Qle_shift_div_r; [reflexivity |]. lra.
Qed.

(** ** GPA and CGPA *)

Lemma calculateGPA_zero_units (results : list ScoredCourse) :
  sumUnits results == 0 -> calculateGPA results = GPA.mk 0 0 0.
Proof.
  intros H. destruct results as [| r rest]; [reflexivity |].
  unfold calculateGPA.
  rewrite (proj2 (eqb_true _ 0)); [reflexivity |].
  now rewrite (reduce_sumOf courseUnit).
Qed.

Lemma calculateGPA_nonzero_units (results : list ScoredCourse) :
  ~ sumUnits results == 0 ->
  calculateGPA results =
  let totalUnits := fold_left (fun sum r => sum + courseUnit r) results 0 in
  let totalPoints :=
    fold_left (fun sum r => sum + gradePoint r * courseUnit r) results 0 in
  GPA.mk (round2 (totalPoints / totalUnits)) totalUnits totalPoints.
Proof.
  intros H. destruct results as [| r rest].
  - exfalso. apply H. reflexivity.
  - unfold calculateGPA.
    rewrite (proj2 (eqb_false _ 0)); [reflexivity |].
    now rewrite (reduce_sumOf courseUnit).
Qed.



Lemma Qdiv_compat (a b c d : Q) : a == c -> b == d -> a / b == c / d.
Proof. intros H1 H2. now rewrite H1, H2. Qed.



(** * Further properties of the engine *)

(** ** Letters and points of arbitrary scores *)

Lemma find_in_list {A : Type} (f : A -> bool) (l : list A) (x : A) :
  find f l = Some x -> In x l /\ f x = true.
Proof. apply find_some. Qed.

(** The letter of every band of the table, and the default, is a letter of
    the table. *)
Lemma scoreToGrade_letter (score : number) (g : string) :
  scoreToGrade score = Return g -> In g (map grade GRADING_SCALE).
Proof.
  unfold scoreToGrade. destruct (ltb score 0 || ltb 100 score); [discriminate |].
  cbv zeta.
  destruct (find (bandMatches score) GRADING_SCALE) as [b |] eqn:Hf;
    intros H; injection H as <-.
  - apply find_in_list in Hf. destruct Hf as [Hin _].
    unfold GRADING_SCALE in Hin. cbn [In] in Hin.
    repeat (destruct Hin as [E | Hin]; [subst b; vm_compute; auto 10 |]).
    contradiction.
  - vm_compute. auto 10.
Qed.

Lemma gradeToPoint_table_letter (g : string) :
  In g (map grade GRADING_SCALE) ->
  In (gradeToPoint g) [0; 1; 2; 3; 4; 5].
Proof.
  cbn [map GRADING_SCALE grade In].
  intros H.
  repeat (destruct H as [E | H]; [subst g; vm_compute; auto 10 |]).
  contradiction.
Qed.

Lemma scoreToPoint_bounds (score p : number) :
  scoreToPoint score = Return p ->
  In p [0; 1; 2; 3; 4; 5] /\ 0 <= p <= 5.
Proof.
  unfold scoreToPoint.
  destruct (scoreToGrade score) as [g | e] eqn:Hg; cbn [bind]; [| discriminate].
  intros H. injection H as <-.
  pose proof (gradeToPoint_table_letter _ (scoreToGrade_letter _ _ Hg)) as Hp.
  split; [exact Hp |]. cbn [In] in Hp.
  repeat (destruct Hp as [E | Hp]; [rewrite <- E; split; discriminate |]).
  contradiction.
Qed.

(** X1.  Whatever the score in [0,100], integer or not, [scoreToGrade]
    returns one of the six letters of the table and [scoreToPoint] one of the
    points 0 to 5. *)
Theorem score_conversions_stay_in_table (score : number) :
  0 <= score <= 100 ->
  exists g p,
    scoreToGrade score = Return g /\ In g (map grade GRADING_SCALE)
    /\ scoreToPoint score = Return p /\ In p [0; 1; 2; 3; 4; 5]
    /\ 0 <= p <= 5.
Proof.
  intros H. pose proof (scoreToGrade_in_range score H) as Hg.
  assert (Hp : scoreToPoint score
               = Return (gradeToPoint
                   (or_string (option_map grade
                      (find (bandMatches score) GRADING_SCALE)) "F"))).
  { unfold scoreToPoint. rewrite Hg. reflexivity. }
  eexists. eexists.
  split; [exact Hg |].
  split; [exact (scoreToGrade_letter _ _ Hg) |].
  split; [exact Hp |].
  exact (scoreToPoint_bounds _ _ Hp).
Qed.

Lemma score_conversions_stay_in_table_witness :
  exists g p,
    scoreToGrade 44.5 = Return g /\ In g (map grade GRADING_SCALE)
    /\ scoreToPoint 44.5 = Return p /\ In p [0; 1; 2; 3; 4; 5]
    /\ 0 <= p <= 5.
Proof.
  apply (score_conversions_stay_in_table 44.5). split; discriminate.
Defined.

(** X2.  On scores in [0,100] that lie inside a band, integer or not, the
    letter and the point are those of the band: 70 and above A/5, 60 to 69
    B/4, 50 to 59 C/3, 45 to 49 D/2, 40 to 44 E/1, 39 and below F/0. *)
Theorem score_inside_band (score : number) :
  0 <= score <= 100 ->
  (70 <= score ->
   scoreToGrade score = Return "A"%string /\ scoreToPoint score = Return 5)
  /\ (60 <= score <= 69 ->
      scoreToGrade score = Return "B"%string /\ scoreToPoint score = Return 4)
  /\ (50 <= score <= 59 ->
      scoreToGrade score = Return "C"%string /\ scoreToPoint score = Return 3)
  /\ (45 <= score <= 49 ->
      scoreToGrade score = Return "D"%string /\ scoreToPoint score = Return 2)
  /\ (40 <= score <= 44 ->
      scoreToGrade score = Return "E"%string /\ scoreToPoint score = Return 1)
  /\ (score <= 39 ->
      scoreToGrade score = Return "F"%string /\ scoreToPoint score = Return 0).
Proof.
  intros H. unfold scoreToPoint.
  rewrite (scoreToGrade_in_range score H).
  unfold GRADING_SCALE, bandMatches. cbn [find minScore maxScore].
  repeat match goal with |- _ /\ _ => split end;
    intros Hb; decide_cmp; split; reflexivity.
Qed.

Lemma score_inside_band_witness :
  scoreToGrade 64.5 = Return "B"%string /\ scoreToPoint 64.5 = Return 4.
Proof.
  assert (H : 0 <= 64.5 <= 100) by (split; discriminate).
  apply (proj1 (proj2 (score_inside_band 64.5 H))).
  split; discriminate.
Defined.

(** ** Grade colours *)

Lemma getGradeColor_upper (s t : string) :
  toUpperCase s = toUpperCase t -> getGradeColor s = getGradeColor t.
Proof. intros H. unfold getGradeColor. now rewrite H. Qed.

Lemma getGradeColor_known (letter : string) :
  In (toUpperCase letter) (map grade GRADING_SCALE) ->
  In (getGradeColor letter) (map snd colors)
  /\ getGradeColor letter <> "text-gray-600 bg-gray-50"%string.
Proof.
  unfold getGradeColor. cbn [map GRADING_SCALE grade In]. intros H.
  repeat (destruct H as [E | H];
          [rewrite <- E; vm_compute; split; [auto 10 | discriminate] |]).
  contradiction.
Qed.

Lemma getGradeColor_unknown (letter : string) :
  ~ In (toUpperCase letter) (map grade GRADING_SCALE) ->
  getGradeColor letter = "text-gray-600 bg-gray-50"%string.
Proof.
  intros Hn. unfold getGradeColor, property, colors. cbn [find fst].
  repeat match goal with
  | |- context [String.eqb ?a ?b] =>
      destruct (String.eqb_spec a b) as [E | _];
      [exfalso; apply Hn; rewrite <- E; vm_compute; auto 10 |]
  end.
  reflexivity.
Qed.

(** X3.  [getGradeColor] ignores the case of its argument; it returns one of
    the six colour classes exactly when the upper-cased argument is a letter
    of the grading scale, and the gray class otherwise; so the letter
    [scoreToGrade] returns for a score in [0,100] is never shown in gray. *)
Theorem grade_colour_defined_on_scale (letter : string) (score : number) :
  getGradeColor (toLowerCase letter) = getGradeColor letter
  /\ getGradeColor (toUpperCase letter) = getGradeColor letter
  /\ (In (toUpperCase letter) (map grade GRADING_SCALE) ->
      In (getGradeColor letter) (map snd colors)
      /\ getGradeColor letter <> "text-gray-600 bg-gray-50"%string)
  /\ (~ In (toUpperCase letter) (map grade GRADING_SCALE) ->
      getGradeColor letter = "text-gray-600 bg-gray-50"%string)
  /\ (0 <= score <= 100 ->
      exists g, scoreToGrade score = Return g
                /\ In (getGradeColor g) (map snd colors)
                /\ getGradeColor g <> "text-gray-600 bg-gray-50"%string).
Proof.
  split; [| split; [| split; [| split]]].
  - apply getGradeColor_upper, toUpperCase_toLowerCase.
  - apply getGradeColor_upper, toUpperCase_idem.
  - apply getGradeColor_known.
  - apply getGradeColor_unknown.
  - intros H. pose proof (scoreToGrade_in_range score H) as Hg.
    eexists. split; [exact Hg |].
    apply getGradeColor_known.
    pose proof (scoreToGrade_letter _ _ Hg) as Hin.
    revert Hin. generalize (or_string
      (option_map grade (find (bandMatches score) GRADING_SCALE)) "F").
    intros g. cbn [map GRADING_SCALE grade In]. intros Hin.
    repeat (destruct Hin as [E | Hin]; [subst g; vm_compute; auto 10 |]).
    contradiction.
Qed.

Lemma grade_colour_defined_on_scale_witness :
  (getGradeColor "b" <> "text-gray-600 bg-gray-50"%string)
  /\ getGradeColor "G" = "text-gray-600 bg-gray-50"%string
  /\ exists g, scoreToGrade 39.5 = Return g
               /\ In (getGradeColor g) (map snd colors)
               /\ getGradeColor g <> "text-gray-600 bg-gray-50"%string.
Proof.
  split; [| split].
  - apply (proj1 (proj2 (proj2 (grade_colour_defined_on_scale "b" 0)))).
    vm_compute. auto 10.
  - apply (proj1 (proj2 (proj2 (proj2 (grade_colour_defined_on_scale "G" 0))))).
    vm_compute. intros [H | [H | [H | [H | [H | [H | H]]]]]];
      try discriminate H; exact H.
  - apply (proj2 (proj2 (proj2 (proj2 (grade_colour_defined_on_scale "" 39.5))))).
    split; discriminate.
Defined.

(** ** Bounds and composition of the averages *)




(** The two cases of [calculateGPA]. *)
Lemma calculateGPA_cases (results : list ScoredCourse) :
  (sumUnits results == 0 /\ calculateGPA results = GPA.mk 0 0 0)
  \/ (~ sumUnits results == 0
      /\ GPA.totalUnits (calculateGPA results) == sumUnits results
      /\ GPA.totalPoints (calculateGPA results) == sumPoints results
      /\ GPA.gpa (calculateGPA results)
         == round2 (sumPoints results / sumUnits results)).
Proof.
  destruct (Qeq_dec (sumUnits results) 0) as [Hz | Hnz].
  - left. split; [exact Hz | now apply calculateGPA_zero_units].
  - right. split; [exact Hnz |].
    rewrite (calculateGPA_nonzero_units results Hnz).
    cbn [GPA.totalUnits GPA.totalPoints GPA.gpa].
    pose proof (reduce_sumOf courseUnit results) as Hu.
    pose proof (reduce_sumOf (fun r => gradePoint r * courseUnit r) results) as Hp.
    fold (sumUnits results) in Hu. fold (sumPoints results) in Hp.
    split; [exact Hu | split; [exact Hp |]].
    apply round2_comp, Qdiv_compat; assumption.
Qed.


Lemma sums_within_scale (results : list ScoredCourse) :
  Forall (fun r => 0 <= gradePoint r <= 5 /\ 0 <= courseUnit r) results ->
  0 <= sumUnits results
  /\ 0 <= sumPoints results /\ sumPoints results <= 5 * sumUnits results.
Proof.
  unfold sumUnits, sumPoints.
  induction 1 as [| r rest [[Hg0 Hg5] Hu] _ IH]; cbn [sumOf].
  - repeat split; discriminate.
  - destruct IH as (IHu & IHp0 & IHp5).
    assert (0 <= gradePoint r * courseUnit r) by (apply Qmult_le_0_compat; assumption).
    assert (gradePoint r * courseUnit r <= 5 * courseUnit r)
      by (apply Qmult_le_compat_r; assumption).
    repeat split; lra.
Qed.


Lemma sumOf_app {A : Type} (f : A -> number) (l1 l2 : list A) :
  sumOf f (l1 ++ l2) == sumOf f l1 + sumOf f l2.
Proof.
  induction l1 as [| x l1 IH]; cbn [sumOf app].
  - ring.
  - rewrite IH. ring.
Qed.



(** * The data service *)

(** ** Arrays *)

Lemma findIndex_Some {A : Type} (f : A -> bool) (l : list A) (i : nat) :
  JsArray.findIndex f l = Some i ->
  exists x, nth_error l i = Some x /\ f x = true
            /\ Forall (fun y => f y = false) (firstn i l).
Proof.
  revert i. induction l as [| y l IH]; intros i; cbn [JsArray.findIndex].
  - discriminate.
  - destruct (f y) eqn:Hy.
    + intros H. injection H as <-. exists y. cbn. auto.
    + destruct (JsArray.findIndex f l) as [j |]; cbn [option_map]; [| discriminate].
      intros H. injection H as <-.
      destruct (IH j eq_refl) as (x & Hx & Hfx & Hpre).
      exists x. cbn [nth_error firstn]. auto.
Qed.

Lemma findIndex_None {A : Type} (f : A -> bool) (l : list A) :
  JsArray.findIndex f l = None -> Forall (fun y => f y = false) l.
Proof.
  induction l as [| y l IH]; cbn [JsArray.findIndex]; [constructor |].
  destruct (f y) eqn:Hy; [discriminate |].
  destruct (JsArray.findIndex f l); cbn [option_map]; [discriminate |].
  intros _. constructor; auto.
Qed.

Lemma Forall_setAt {A : Type} (P : A -> Prop) (i : nat) (x : A) (l : list A) :
  P x -> Forall P l -> Forall P (JsArray.setAt i x l).
Proof.
  intros Hx. revert i. induction l as [| y l IH]; intros i H.
  - destruct i; constructor.
  - inversion H; subst. destruct i; cbn; constructor; auto.
Qed.

(** ** Keys *)

Lemma sameResultKey_entry (entry : Entry.t) (r : Result.t) :
  sameResultKey entry r = sameEntryKey (entryOf r) entry.
Proof. reflexivity. Qed.

Lemma sameEntryKey_true (a b : Entry.t) :
  sameEntryKey a b = true <->
  Entry.studentId a = Entry.studentId b
  /\ Entry.level a == Entry.level b
  /\ Entry.semester a == Entry.semester b
  /\ Entry.courseCode a = Entry.courseCode b.
Proof.
  unfold sameEntryKey. rewrite !andb_true_iff, !String.eqb_eq, !eqb_true.
  tauto.
Qed.

Lemma sameEntryKey_refl (a : Entry.t) : sameEntryKey a a = true.
Proof. apply sameEntryKey_true. repeat split; reflexivity. Qed.

Lemma sameEntryKey_sym (a b : Entry.t) : sameEntryKey a b = sameEntryKey b a.
Proof.
  destruct (sameEntryKey a b) eqn:Hab; destruct (sameEntryKey b a) eqn:Hba;
    try reflexivity; exfalso.
  - apply sameEntryKey_true in Hab. destruct Hab as (H1 & H2 & H3 & H4).
    assert (sameEntryKey b a = true) by
      (apply sameEntryKey_true; repeat split; symmetry; assumption).
    congruence.
  - apply sameEntryKey_true in Hba. destruct Hba as (H1 & H2 & H3 & H4).
    assert (sameEntryKey a b = true) by
      (apply sameEntryKey_true; repeat split; symmetry; assumption).
    congruence.
Qed.

Lemma sameEntryKey_trans (a b c : Entry.t) :
  sameEntryKey a b = true -> sameEntryKey b c = true -> sameEntryKey a c = true.
Proof.
  rewrite !sameEntryKey_true.
  intros (H1 & H2 & H3 & H4) (K1 & K2 & K3 & K4).
  repeat split; try congruence.
  - now rewrite H2. 
  - now rewrite H3.
Qed.

(** Entries with the same key match the same entries. *)
Lemma sameEntryKey_congr (a b c : Entry.t) :
  sameEntryKey a b = true -> sameEntryKey a c = sameEntryKey b c.
Proof.
  intros Hab.
  destruct (sameEntryKey a c) eqn:Hac; destruct (sameEntryKey b c) eqn:Hbc;
    try reflexivity; exfalso.
  - rewrite sameEntryKey_sym in Hab.
    pose proof (sameEntryKey_trans _ _ _ Hab Hac). congruence.
  - pose proof (sameEntryKey_trans _ _ _ Hab Hbc). congruence.
Qed.

Lemma madeFrom_key (entry : Entry.t) (r : Result.t) :
  madeFrom entry r -> sameResultKey entry r = true.
Proof.
  intros [He _]. rewrite sameResultKey_entry, He. apply sameEntryKey_refl.
Qed.

(** ** The loop of [saveResults] *)

Lemma inRange_check (entry : Entry.t) :
  inRange entry <->
  ltb (Entry.score entry) 0 || ltb 100 (Entry.score entry) = false.
Proof. symmetry. apply range_check_false. Qed.

Lemma not_inRange_check (entry : Entry.t) :
  ~ inRange entry <->
  ltb (Entry.score entry) 0 || ltb 100 (Entry.score entry) = true.
Proof.
  rewrite inRange_check.
  destruct (ltb (Entry.score entry) 0 || ltb 100 (Entry.score entry));
    split; congruence.
Qed.

(** One turn of the loop on an entry whose score is in range. *)
Lemma saveLoop_step (host : Host) (entry : Entry.t) (rest : list Entry.t)
    (results saved : list Result.t) (w : World) :
  inRange entry ->
  exists r w1,
    madeFrom entry r /\ keepsId entry r results
    /\ storage w1 = storage w
    /\ saveLoop host (entry :: rest) results saved w
       = saveLoop host rest (upsert entry r results) (saved ++ [r]) w1.
Proof.
  intros Hr. cbn [saveLoop].
  rewrite (proj1 (inRange_check entry) Hr).
  pose proof (scoreToGrade_in_range _ Hr) as Hg.
  set (g := or_string
              (option_map grade (find (bandMatches (Entry.score entry))
                                      GRADING_SCALE)) "F") in *.
  assert (Hp : scoreToPoint (Entry.score entry) = Return (gradeToPoint g)).
  { unfold scoreToPoint. rewrite Hg. reflexivity. }
  rewrite Hg, Hp. unfold upsert.
  destruct (JsArray.findIndex (sameResultKey entry) results) as [i |] eqn:Hi.
  - destruct (findIndex_Some _ _ _ Hi) as (existing & Hn & _).
    rewrite Hn. eexists. exists w.
    split; [| split; [| split; [reflexivity | reflexivity]]].
    + split; [destruct entry; reflexivity |].
      split; [exact Hg | split; [exact Hp | reflexivity]].
    + intros j ex Hj Hex. cbn [Result.id]. congruence.
  - cbn [generateId]. eexists. eexists.
    split; [| split; [| split; [| reflexivity]]].
    + split; [destruct entry; reflexivity |].
      split; [exact Hg | split; [exact Hp | reflexivity]].
    + intros j ex Hj. congruence.
    + reflexivity.
Qed.

(** The loop on entries that are all in range runs to its end. *)
Lemma saveLoop_run (host : Host) (entries : list Entry.t) :
  Forall inRange entries ->
  forall (results saved : list Result.t) (w : World),
  exists results' new w',
    saveLoop host entries results saved w = (Return (results', saved ++ new), w')
    /\ storage w' = storage w
    /\ upserts entries results results' new.
Proof.
  induction 1 as [| entry rest Hr _ IH]; intros results saved w.
  - exists results, [], w. cbn [saveLoop]. rewrite app_nil_r.
    repeat split. constructor.
  - destruct (saveLoop_step host entry rest results saved w Hr)
      as (r & w1 & Hm & Hk & Hs & Heq).
    destruct (IH (upsert entry r results) (saved ++ [r]) w1)
      as (results' & new & w' & Hrun & Hs' & Hup).
    exists results', (r :: new), w'.
    rewrite Heq, Hrun, <- app_assoc. cbn [app].
    repeat split; [congruence |]. now constructor.
Qed.

Lemma saveResults_run (host : Host) (entries : list Entry.t) (w : World) :
  Forall inRange entries ->
  exists results' saved w',
    saveResults host entries w = (Return saved, w')
    /\ storage w' = Storage.setResults results' (storage w)
    /\ upserts entries (getFromStorage (Storage.results (storage w)) [])
         results' saved.
Proof.
  intros H. unfold saveResults.
  destruct (saveLoop_run host entries H
              (getFromStorage (Storage.results (storage w)) []) [] w)
    as (results' & new & w' & Hrun & Hs & Hup).
  rewrite Hrun. cbn [app].
  eexists results', new, _. split; [reflexivity |].
  cbn [storage]. rewrite Hs. split; [reflexivity | exact Hup].
Qed.

(** The loop throws only for an entry whose score is out of range, and then
    throws that entry's error. *)
Lemma saveLoop_throw (host : Host) (entries : list Entry.t) :
  forall (results saved : list Result.t) (w w' : World) (e : ErrorObject),
  saveLoop host entries results saved w = (Throw e, w') ->
  storage w' = storage w
  /\ exists pre bad post,
       entries = pre ++ bad :: post /\ Forall inRange pre /\ ~ inRange bad
       /\ e = invalidScore host bad.
Proof.
  induction entries as [| entry rest IH]; intros results saved w w' e.
  - cbn [saveLoop]. discriminate.
  - destruct (ltb (Entry.score entry) 0 || ltb 100 (Entry.score entry)) eqn:Hc.
    + cbn [saveLoop]. rewrite Hc. intros H. injection H as <- <-.
      split; [reflexivity |].
      exists [], entry, rest.
      split; [reflexivity | split; [constructor | split; [| reflexivity]]].
      now apply not_inRange_check.
    + apply inRange_check in Hc.
      destruct (saveLoop_step host entry rest results saved w Hc)
        as (r & w1 & _ & _ & Hs & Heq).
      rewrite Heq. intros H.
      destruct (IH _ _ _ _ _ H) as (Hs' & pre & bad & post & E & Hpre & Hbad & He).
      split; [congruence |].
      exists (entry :: pre), bad, post.
      split; [cbn [app]; congruence |].
      split; [now constructor | split; assumption].
Qed.

(** ** One update of the array *)

Lemma uniqueKeys_app_single (l : list Result.t) (r : Result.t) :
  uniqueKeys l ->
  Forall (fun x => sameResultKey (entryOf x) r = false) l ->
  uniqueKeys (l ++ [r]).
Proof.
  induction l as [| x l IH]; cbn [uniqueKeys app].
  - intros _ _. split; [constructor | exact I].
  - intros [Hx Hu] Hf. inversion Hf as [| ? ? Hxr Hl]; subst. split.
    + apply Forall_app. split; [exact Hx | now constructor].
    + now apply IH.
Qed.

Lemma uniqueKeys_setAt (l : list Result.t) (i : nat) (existing r : Result.t) :
  uniqueKeys l -> nth_error l i = Some existing ->
  sameEntryKey (entryOf existing) (entryOf r) = true ->
  uniqueKeys (JsArray.setAt i r l).
Proof.
  intros Hu Hn Hk. revert i Hu Hn.
  induction l as [| x l IH]; intros i Hu Hn.
  - destruct i; discriminate Hn.
  - cbn [uniqueKeys] in Hu. destruct Hu as [Hx Hu].
    destruct i as [| i]; cbn [JsArray.setAt uniqueKeys].
    + cbn [nth_error] in Hn. injection Hn as ->. split; [| exact Hu].
      eapply Forall_impl; [| exact Hx]. cbn beta. intros y Hy.
      rewrite sameResultKey_entry in *.
      rewrite (sameEntryKey_sym (entryOf y)) in *.
      now rewrite <- (sameEntryKey_congr _ _ (entryOf y) Hk).
    + cbn [nth_error] in Hn. split; [| now apply IH].
      apply Forall_setAt; [| exact Hx].
      assert (Hex : sameResultKey (entryOf x) existing = false).
      { rewrite Forall_forall in Hx. apply Hx. eapply nth_error_In; eauto. }
      rewrite sameResultKey_entry in *.
      now rewrite <- (sameEntryKey_congr _ _ (entryOf x) Hk).
Qed.

Lemma upsert_uniqueKeys (entry : Entry.t) (r : Result.t) (results : list Result.t) :
  madeFrom entry r -> uniqueKeys results -> uniqueKeys (upsert entry r results).
Proof.
  intros [He _] Hu. unfold upsert.
  destruct (JsArray.findIndex (sameResultKey entry) results) as [i |] eqn:Hi.
  - destruct (findIndex_Some _ _ _ Hi) as (existing & Hn & Hm & _).
    apply (uniqueKeys_setAt results i existing r Hu Hn).
    rewrite He. now rewrite <- sameResultKey_entry.
  - apply uniqueKeys_app_single; [exact Hu |].
    eapply Forall_impl; [| exact (findIndex_None _ _ Hi)]. cbn beta.
    intros x Hx. rewrite sameResultKey_entry in *.
    now rewrite He, sameEntryKey_sym.
Qed.





Lemma filter_find_setAt {A : Type} (f : A -> bool) (i : nat) (x existing : A)
    (l : list A) :
  nth_error l i = Some existing -> f existing = false -> f x = false ->
  filter f (JsArray.setAt i x l) = filter f l
  /\ find f (JsArray.setAt i x l) = find f l.
Proof.
  intros Hn He Hx. revert i Hn.
  induction l as [| y l IH]; intros i Hn.
  - destruct i; discriminate Hn.
  - destruct i as [| i]; cbn [nth_error] in Hn; cbn [JsArray.setAt filter find].
    + injection Hn as ->. now rewrite He, Hx.
    + destruct (IH i Hn) as [IH1 IH2]. now rewrite IH1, IH2.
Qed.

(** A selection that excludes the entry's key is not affected by the update. *)
Lemma upsert_frame (f : Result.t -> bool) (entry : Entry.t) (r : Result.t)
    (results : list Result.t) :
  madeFrom entry r ->
  (forall x, sameResultKey entry x = true -> f x = false) ->
  filter f (upsert entry r results) = filter f results
  /\ find f (upsert entry r results) = find f results.
Proof.
  intros Hm Hf. pose proof (Hf r (madeFrom_key _ _ Hm)) as Hr. unfold upsert.
  destruct (JsArray.findIndex (sameResultKey entry) results) as [i |] eqn:Hi.
  - destruct (findIndex_Some _ _ _ Hi) as (existing & Hn & Hk & _).
    apply (filter_find_setAt f i r existing); auto.
  - split.
    + rewrite filter_app. cbn [filter]. rewrite Hr. apply app_nil_r.
    + induction results as [| y l IH]; cbn [app find].
      * now rewrite Hr.
      * cbn [JsArray.findIndex] in Hi.
        destruct (sameResultKey entry y); [discriminate |].
        destruct (JsArray.findIndex (sameResultKey entry) l); [discriminate |].
        destruct (f y); [reflexivity | now apply IH].
Qed.

Lemma upsert_ids (entry : Entry.t) (r : Result.t) (results : list Result.t) :
  keepsId entry r results ->
  exists extra,
    map Result.id (upsert entry r results) = map Result.id results ++ extra
    /\ (List.length extra <= 1)%nat.
Proof.
  intros Hk. unfold upsert.
  destruct (JsArray.findIndex (sameResultKey entry) results) as [i |] eqn:Hi.
  - destruct (findIndex_Some _ _ _ Hi) as (existing & Hn & _).
    pose proof (Hk i existing Hi Hn) as Hid.
    exists []. rewrite app_nil_r. split; [| cbn; lia].
    clear Hi Hk. revert i Hn.
    induction results as [| y l IH]; intros i Hn.
    + destruct i; discriminate Hn.
    + destruct i as [| i]; cbn [nth_error] in Hn; cbn [JsArray.setAt map].
      * injection Hn as ->. now rewrite Hid.
      * now rewrite (IH i Hn).
  - exists [Result.id r]. rewrite map_app. split; [reflexivity | cbn; lia].
Qed.

(** ** Sequences of updates *)



Lemma upserts_uniqueKeys (entries : list Entry.t)
    (results results' saved : list Result.t) :
  upserts entries results results' saved ->
  uniqueKeys results -> uniqueKeys results'.
Proof.
  induction 1 as [| entry rest r results results' saved Hm _ _ IH].
  - auto.
  - intros H. apply IH. now apply upsert_uniqueKeys.
Qed.

Lemma upserts_frame (f : Result.t -> bool) (entries : list Entry.t)
    (results results' saved : list Result.t) :
  upserts entries results results' saved ->
  Forall (fun entry => forall x, sameResultKey entry x = true -> f x = false)
         entries ->
  filter f results' = filter f results /\ find f results' = find f results.
Proof.
  induction 1 as [| entry rest r results results' saved Hm _ _ IH].
  - auto.
  - intros H. inversion H as [| ? ? He Hrest]; subst.
    destruct (IH Hrest) as [IH1 IH2].
    destruct (upsert_frame f entry r results Hm He) as [F1 F2].
    split; congruence.
Qed.

Lemma upserts_ids (entries : list Entry.t) (results results' saved : list Result.t) :
  upserts entries results results' saved ->
  exists extra,
    map Result.id results' = map Result.id results ++ extra
    /\ (List.length extra <= List.length entries)%nat.
Proof.
  induction 1 as [| entry rest r results results' saved _ Hk _ IH].
  - exists []. rewrite app_nil_r. split; [reflexivity | cbn; lia].
  - destruct IH as (extra2 & E2 & L2).
    destruct (upsert_ids entry r results Hk) as (extra1 & E1 & L1).
    exists (extra1 ++ extra2). rewrite E2, E1, <- app_assoc.
    split; [reflexivity |]. rewrite length_app. cbn [List.length]. lia.
Qed.




(** ** [saveResults] *)

Lemma saveResults_returns (host : Host) (entries : list Entry.t) (w w' : World)
    (saved : list Result.t) :
  saveResults host entries w = (Return saved, w') ->
  Forall inRange entries
  /\ exists results',
       storage w' = Storage.setResults results' (storage w)
       /\ upserts entries (storedResults (storage w)) results' saved.
Proof.
  intros H.
  assert (Hr : Forall inRange entries).
  { apply Forall_forall. intros entry Hin.
    destruct (ltb (Entry.score entry) 0 || ltb 100 (Entry.score entry)) eqn:Hc;
      [| now apply inRange_check].
    exfalso. apply in_split in Hin. destruct Hin as (l1 & l2 & ->).
    revert H. unfold saveResults.
    destruct (saveLoop host (l1 ++ entry :: l2)
                (getFromStorage (Storage.results (storage w)) []) [] w)
      as [[[res sv] | e] w1] eqn:Hl; [| discriminate].
    intros _.
    assert (G : forall pre results saved0 w0 res0 w2,
              saveLoop host (pre ++ entry :: l2) results saved0 w0
              <> (Return res0, w2)).
    { clear -Hc. induction pre as [| x pre IH]; intros results saved0 w0 res0 w2.
      - cbn [app saveLoop]. rewrite Hc. discriminate.
      - destruct (ltb (Entry.score x) 0 || ltb 100 (Entry.score x)) eqn:Hx.
        + cbn [app saveLoop]. rewrite Hx. discriminate.
        + apply inRange_check in Hx. cbn [app].
          destruct (saveLoop_step host x (pre ++ entry :: l2) results saved0 w0 Hx)
            as (r & w1 & _ & _ & _ & Heq).
          rewrite Heq. apply IH. }
    exact (G _ _ _ _ _ _ Hl). }
  split; [exact Hr |].
  destruct (saveResults_run host entries w Hr)
    as (results' & saved' & w'' & Hrun & Hs & Hup).
  rewrite Hrun in H. injection H as <- <-.
  exists results'. split; assumption.
Qed.

Lemma first_failure_unique {A : Type} (P : A -> Prop) (pre pre' post post' : list A)
    (bad bad' : A) :
  pre ++ bad :: post = pre' ++ bad' :: post' ->
  Forall P pre -> ~ P bad -> Forall P pre' -> ~ P bad' ->
  pre = pre' /\ bad = bad'.
Proof.
  revert pre'. induction pre as [| x pre IH]; intros [| y pre'] E Hp Hb Hp' Hb';
    cbn [app] in E; injection E as E1 E2.
  - auto.
  - subst y. inversion Hp'; subst. contradiction.
  - subst x. inversion Hp; subst. contradiction.
  - subst y. inversion Hp; inversion Hp'; subst.
    destruct (IH pre' E2) as [-> ->]; auto.
Qed.

(** X6.  When an entry has a score below 0 or above 100, [saveResults] throws
    the "Invalid score" error of the first such entry, and the storage is
    what it was before the call: nothing is written, not even the results of
    the valid entries that come first. *)
Theorem saveResults_rejects_invalid_score (host : Host) (w : World)
    (pre post : list Entry.t) (bad : Entry.t) :
  Forall inRange pre -> ~ inRange bad ->
  exists w',
    saveResults host (pre ++ bad :: post) w = (Throw (invalidScore host bad), w')
    /\ storage w' = storage w.
Proof.
  intros Hpre Hbad.
  destruct (saveResults host (pre ++ bad :: post) w) as [[saved | e] w'] eqn:H.
  - exfalso. apply saveResults_returns in H. destruct H as [Hr _].
    apply Forall_app in Hr. destruct Hr as [_ Hr]. inversion Hr; subst.
    contradiction.
  - exists w'. unfold saveResults in H.
    destruct (saveLoop host (pre ++ bad :: post)
                (getFromStorage (Storage.results (storage w)) []) [] w)
      as [[[res sv] | e1] w1] eqn:Hl; [discriminate |].
    injection H as -> ->.
    destruct (saveLoop_throw _ _ _ _ _ _ _ Hl)
      as (Hs & pre' & bad' & post' & E & Hpre' & Hbad' & ->).
    destruct (first_failure_unique inRange _ _ _ _ _ _ E Hpre Hbad Hpre' Hbad')
      as [_ ->].
    split; [reflexivity | exact Hs].
Qed.

(** X7.  [saveResults] throws nothing but that error: whenever it throws, some
    entry has a score out of range, the error is the "Invalid score" error
    of the first such entry, and the storage is unchanged.  The range error of
    [scoreToGrade] and the read of a missing array element are never
    reached. *)
Theorem saveResults_throws_only_invalid_score (host : Host) (w w' : World)
    (entries : list Entry.t) (e : ErrorObject) :
  saveResults host entries w = (Throw e, w') ->
  storage w' = storage w
  /\ errClass e = Error
  /\ exists pre bad post,
       entries = pre ++ bad :: post /\ Forall inRange pre /\ ~ inRange bad
       /\ e = invalidScore host bad.
Proof.
  unfold saveResults.
  destruct (saveLoop host entries
              (getFromStorage (Storage.results (storage w)) []) [] w)
    as [[[res sv] | e1] w1] eqn:Hl; [discriminate |].
  intros H. injection H as -> ->.
  destruct (saveLoop_throw _ _ _ _ _ _ _ Hl)
    as (Hs & pre & bad & post & E & Hpre & Hbad & He).
  split; [exact Hs | split; [now rewrite He |]].
  exists pre, bad, post. auto.
Qed.


Lemma saveResults_rejects_invalid_score_witness :
  exists w',
    saveResults sampleHost ([entryMaths] ++ entryInvalid :: [entryPhysics])
      freshWorld
    = (Throw (invalidScore sampleHost entryInvalid), w')
    /\ storage w' = storage freshWorld.
Proof.
  apply saveResults_rejects_invalid_score.
  - repeat constructor; discriminate.
  - intros [_ H]. apply H. reflexivity.
Defined.

Lemma saveResults_throws_only_invalid_score_witness :
  storage (mkWorld emptyStorage 1) = storage freshWorld
  /\ errClass (invalidScore sampleHost entryInvalid) = Error
  /\ exists pre bad post,
       [entryMaths; entryInvalid] = pre ++ bad :: post
       /\ Forall inRange pre /\ ~ inRange bad
       /\ invalidScore sampleHost entryInvalid = invalidScore sampleHost bad.
Proof.
  apply (saveResults_throws_only_invalid_score sampleHost freshWorld
           (mkWorld emptyStorage 1) [entryMaths; entryInvalid]).
  reflexivity.
Defined.


Lemma eqb_congr (x y z : number) : x == y -> eqb x z = eqb y z.
Proof.
  intros H. destruct (eqb x z) eqn:Hx; destruct (eqb y z) eqn:Hy;
    try reflexivity; exfalso.
  - apply eqb_true in Hx. apply eqb_false in Hy. apply Hy. now rewrite <- H.
  - apply eqb_false in Hx. apply eqb_true in Hy. apply Hx. now rewrite H.
Qed.


Lemma storedResults_setResults (results : list Result.t) (st : Storage.t) :
  storedResults (Storage.setResults results st) = results.
Proof. reflexivity. Qed.

(** X9.  [saveResults] keeps the stored results free of duplicates: if no two
    stored results are for the same student, level, semester and course
    before a call that returns, none are after it. *)
Theorem saveResults_keeps_keys_unique (host : Host) (w w' : World)
    (entries : list Entry.t) (saved : list Result.t) :
  saveResults host entries w = (Return saved, w') ->
  uniqueKeys (storedResults (storage w)) ->
  uniqueKeys (storedResults (storage w')).
Proof.
  intros H Hu. apply saveResults_returns in H.
  destruct H as (_ & results' & Hs & Hup).
  rewrite Hs, storedResults_setResults.
  exact (upserts_uniqueKeys _ _ _ _ Hup Hu).
Qed.



(** X12.  [saveResults] leaves the other semesters alone: after a call that
    returns, [getResults] for a student, level and semester that no entry of
    the call is for returns what it returned before. *)
Theorem saveResults_leaves_other_semesters (host : Host) (w w' : World)
    (entries : list Entry.t) (saved : list Result.t)
    (studentId : string) (level semester : number) :
  saveResults host entries w = (Return saved, w') ->
  Forall (fun entry =>
            String.eqb (Entry.studentId entry) studentId
            && eqb (Entry.level entry) level
            && eqb (Entry.semester entry) semester = false) entries ->
  getResults (storage w') studentId level semester
  = getResults (storage w) studentId level semester.
Proof.
  intros H Hother. apply saveResults_returns in H.
  destruct H as (_ & results' & Hs & Hup).
  unfold getResults. fold (storedResults (storage w')).
  fold (storedResults (storage w)).
  rewrite Hs, storedResults_setResults.
  apply (upserts_frame (inSemester studentId level semester) _ _ _ _ Hup).
  eapply Forall_impl; [| exact Hother]. cbn beta. intros entry He x Hx.
  rewrite sameResultKey_entry in Hx. apply sameEntryKey_true in Hx.
  cbn [entryOf Entry.studentId Entry.level Entry.semester Entry.courseCode] in Hx.
  destruct Hx as (H1 & H2 & H3 & _).
  unfold inSemester. now rewrite H1, (eqb_congr _ _ _ H2), (eqb_congr _ _ _ H3).
Qed.

(** X13.  [saveResults] never removes or reorders stored results and never
    changes their identifiers: after a call that returns, the identifiers of
    the stored results are those stored before, in the same order, followed
    by at most one new identifier per entry. *)
Theorem saveResults_keeps_identifiers (host : Host) (w w' : World)
    (entries : list Entry.t) (saved : list Result.t) :
  saveResults host entries w = (Return saved, w') ->
  exists extra,
    map Result.id (storedResults (storage w'))
    = map Result.id (storedResults (storage w)) ++ extra
    /\ (List.length extra <= List.length entries)%nat.
Proof.
  intros H. apply saveResults_returns in H.
  destruct H as (_ & results' & Hs & Hup).
  rewrite Hs, storedResults_setResults.
  exact (upserts_ids _ _ _ _ Hup).
Qed.

Lemma saveResults_keeps_keys_unique_witness :
  uniqueKeys (storedResults (storage (snd
    (saveResults sampleHost [entryMaths; entryPhysics; entryMathsAgain]
       freshWorld)))).
Proof.
  eapply (saveResults_keeps_keys_unique sampleHost freshWorld _
            [entryMaths; entryPhysics; entryMathsAgain]).
  - reflexivity.
  - exact I.
Defined.



Lemma saveResults_leaves_other_semesters_witness :
  getResults (storage (snd (saveResults sampleHost [entryMaths; entryPhysics]
     (snd (saveResults sampleHost [entryOther] freshWorld))))) "std2" 100 1
  = getResults (storage (snd (saveResults sampleHost [entryOther] freshWorld)))
      "std2" 100 1.
Proof.
  apply (saveResults_leaves_other_semesters sampleHost
           (snd (saveResults sampleHost [entryOther] freshWorld))
           (snd (saveResults sampleHost [entryMaths; entryPhysics]
              (snd (saveResults sampleHost [entryOther] freshWorld))))
           [entryMaths; entryPhysics]
           (match fst (saveResults sampleHost [entryMaths; entryPhysics]
              (snd (saveResults sampleHost [entryOther] freshWorld))) with
            | Return saved => saved
            | Throw _ => []
            end)).
  - reflexivity.
  - repeat constructor.
Defined.

Lemma saveResults_keeps_identifiers_witness :
  exists extra,
    map Result.id (storedResults (storage (snd
      (saveResults sampleHost [entryMathsAgain; entryPhysics]
         (snd (saveResults sampleHost [entryMaths] freshWorld))))))
    = map Result.id (storedResults (storage
        (snd (saveResults sampleHost [entryMaths] freshWorld)))) ++ extra
    /\ (List.length extra <= 2)%nat.
Proof.
  apply (saveResults_keeps_identifiers sampleHost
           (snd (saveResults sampleHost [entryMaths] freshWorld))
           (snd (saveResults sampleHost [entryMathsAgain; entryPhysics]
              (snd (saveResults sampleHost [entryMaths] freshWorld))))
           [entryMathsAgain; entryPhysics]
           (match fst (saveResults sampleHost [entryMathsAgain; entryPhysics]
              (snd (saveResults sampleHost [entryMaths] freshWorld))) with
            | Return saved => saved
            | Throw _ => []
            end)).
  reflexivity.
Defined.

(** ** Reading results *)

Lemma filter_filter {A : Type} (f g : A -> bool) (l : list A) :
  filter g (filter f l) = filter (fun x => f x && g x) l.
Proof.
  induction l as [| x l IH]; cbn [filter]; [reflexivity |].
  destruct (f x); cbn [filter andb]; [| exact IH].
  destruct (g x); now rewrite IH.
Qed.

Lemma sumOf_map {A B : Type} (f : B -> number) (g : A -> B) (l : list A) :
  sumOf f (map g l) = sumOf (fun x => f (g x)) l.
Proof.
  induction l as [| x l IH]; cbn [map sumOf]; [reflexivity | now rewrite IH].
Qed.

Lemma sumOf_ext {A : Type} (f g : A -> number) (l : list A) :
  Forall (fun x => f x == g x) l -> sumOf f l == sumOf g l.
Proof.
  induction 1 as [| x l Hx _ IH]; cbn [sumOf]; [reflexivity |].
  now rewrite Hx, IH.
Qed.

Lemma sumUnits_scoredCourses (results : list Result.t) :
  sumUnits (scoredCourses results) = sumOf Result.courseUnit results.
Proof. unfold sumUnits, scoredCourses. now rewrite sumOf_map. Qed.

Lemma sumPoints_scoredCourses (results : list Result.t) :
  sumPoints (scoredCourses results)
  = sumOf (fun r => Result.gradePoint r * Result.courseUnit r) results.
Proof. unfold sumPoints, scoredCourses. now rewrite sumOf_map. Qed.

Lemma sumOf_nonneg {A : Type} (f : A -> number) (l : list A) :
  Forall (fun x => 0 <= f x) l -> 0 <= sumOf f l.
Proof.
  induction 1 as [| x l Hx _ IH]; cbn [sumOf]; [discriminate | lra].
Qed.

Lemma sumOf_zero {A : Type} (f : A -> number) (l : list A) :
  Forall (fun x => 0 <= f x) l -> sumOf f l == 0 ->
  Forall (fun x => f x == 0) l.
Proof.
  induction 1 as [| x l Hx Hl IH]; cbn [sumOf]; intros Hs; [constructor |].
  pose proof (sumOf_nonneg f l Hl) as Hn.
  constructor; [lra | apply IH; lra].
Qed.



Lemma getStudentGPA_filter (st : Storage.t) (studentId : string)
    (level semester : number) :
  filter (fun r => eqb (Result.semester r) semester)
    (filter (fun r => eqb (Result.level r) level)
       (filter (fun r => String.eqb (Result.studentId r) studentId)
          (getFromStorage (Storage.results st) [])))
  = getResults st studentId level semester.
Proof.
  unfold getResults.
  rewrite (filter_filter (fun r => String.eqb (Result.studentId r) studentId)).
  now rewrite filter_filter.
Qed.

(** X14.  For a given level and semester, [getStudentGPA] is [null] exactly
    when [getResults] returns no result for that student, level and
    semester; otherwise its [results] are those [getResults] returns and its
    [gpa], [totalUnits] and [totalPoints] are what [calculateGPA] gives for
    them. *)
Theorem getStudentGPA_of_semester (st : Storage.t) (studentId : string)
    (level semester : number) :
  (getStudentGPA st studentId (Some level) (Some semester) = None
   <-> getResults st studentId level semester = [])
  /\ forall resp,
       getStudentGPA st studentId (Some level) (Some semester) = Some resp ->
       GPAResponse.results resp = getResults st studentId level semester
       /\ GPAResponse.studentId resp = studentId
       /\ GPA.mk (GPAResponse.gpa resp) (GPAResponse.totalUnits resp)
                 (GPAResponse.totalPoints resp)
          = calculateGPA (scoredCourses (getResults st studentId level semester)).
Proof.
  unfold getStudentGPA. rewrite getStudentGPA_filter.
  destruct (getResults st studentId level semester) as [| r rest] eqn:E.
  - split; [tauto | discriminate].
  - split; [split; discriminate |].
    generalize (calculateGPA (scoredCourses (r :: rest))). intros g resp H.
    injection H as <-. destruct g.
    split; [reflexivity | split; reflexivity].
Qed.


Lemma getStudentGPA_of_semester_witness :
  getStudentGPA emptyStorage "std1" (Some 100) (Some 1) = None.
Proof.
  apply (proj1 (getStudentGPA_of_semester emptyStorage "std1" 100 1)).
  reflexivity.
Defined.


(** ** Grouping by semester *)

Lemma JsMap_get_set {V : Type} (key : string) (v : V) (m : JsMap.t V) :
  JsMap.get key (JsMap.set key v m) = Some v.
Proof.
  unfold JsMap.get.
  induction m as [| [k v0] m IH]; cbn [JsMap.set find fst].
  - now rewrite String.eqb_refl.
  - destruct (String.eqb k key) eqn:E; cbn [find fst]; rewrite E; auto.
Qed.

Lemma JsMap_has_get {V : Type} (key : string) (m : JsMap.t V) :
  JsMap.has key m = true -> exists v, JsMap.get key m = Some v.
Proof.
  unfold JsMap.has, JsMap.get.
  induction m as [| [k v0] m IH]; cbn [existsb find fst]; [discriminate |].
  destruct (String.eqb k key); cbn [orb option_map snd]; eauto.
Qed.

Lemma JsMap_get_In {V : Type} (key : string) (v : V) (m : JsMap.t V) :
  JsMap.get key m = Some v -> exists k, In (k, v) m.
Proof.
  unfold JsMap.get.
  destruct (find (fun kv => String.eqb (fst kv) key) m) as [[k v'] |] eqn:E;
    cbn [option_map snd]; [| discriminate].
  intros H. injection H as <-. apply find_some in E. exists k. tauto.
Qed.

Lemma JsMap_set_Forall {V : Type} (P : V -> Prop) (key : string) (v : V)
    (m : JsMap.t V) :
  P v -> Forall (fun kv => P (snd kv)) m ->
  Forall (fun kv => P (snd kv)) (JsMap.set key v m).
Proof.
  intros Hv. induction 1 as [| [k v0] m Hk Hm IH]; cbn [JsMap.set].
  - now repeat constructor.
  - destruct (String.eqb k key); constructor; cbn [snd] in *; auto.
Qed.

(** Setting a key exchanges the group it had, if any, for the new one. *)
Lemma sumGroups_set (f : Result.t -> number) (key : string)
    (group : list Result.t) (m : JsMap.t (list Result.t)) :
  sumGroups f (JsMap.set key group m)
  + sumOf f (match JsMap.get key m with Some old => old | None => [] end)
  == sumGroups f m + sumOf f group.
Proof.
  unfold sumGroups, JsMap.get.
  induction m as [| [k old] m IH]; cbn [JsMap.set find fst sumOf snd option_map].
  - ring.
  - destruct (String.eqb k key); cbn [sumOf snd option_map].
    + ring.
    + rewrite <- Qplus_assoc, IH. ring.
Qed.

Lemma groupStep_returns (host : Host) (m : JsMap.t (list Result.t)) (r : Result.t) :
  exists m',
    groupStep host m r = Return m'
    /\ (forall f, sumGroups f m' == sumGroups f m + f r)
    /\ (forall P : Result.t -> Prop, P r ->
        Forall (fun kv => Forall P (snd kv)) m ->
        Forall (fun kv => Forall P (snd kv)) m').
Proof.
  unfold groupStep. set (key := semesterKey host r).
  destruct (JsMap.has key m) eqn:Hh; cbn [negb].
  - destruct (JsMap_has_get key m Hh) as [group Hg]. rewrite Hg.
    eexists. split; [reflexivity | split].
    + intros f. pose proof (sumGroups_set f key (group ++ [r]) m) as H.
      rewrite Hg, sumOf_app in H. cbn [sumOf] in H. revert H.
      generalize (sumGroups f (JsMap.set key (group ++ [r]) m))
                 (sumGroups f m) (sumOf f group) (f r).
      intros a b c d H. lra.
    + intros P Hr Hm. apply JsMap_set_Forall; [| exact Hm].
      apply Forall_app. split; [| now constructor].
      destruct (JsMap_get_In _ _ _ Hg) as [k Hin].
      rewrite Forall_forall in Hm. exact (Hm _ Hin).
  - rewrite JsMap_get_set. eexists. split; [reflexivity | split].
    + intros f.
      pose proof (sumGroups_set f key ([] ++ [r]) (JsMap.set key [] m)) as H1.
      pose proof (sumGroups_set f key [] m) as H2.
      rewrite JsMap_get_set in H1.
      assert (Hn : JsMap.get key m = None).
      { clear -Hh. unfold JsMap.has, JsMap.get in *.
        induction m as [| [k v] m IH]; cbn [existsb find fst] in *; [reflexivity |].
        destruct (String.eqb k key); cbn [orb] in Hh; [discriminate | auto]. }
      rewrite Hn in H2. cbn [app sumOf] in H1, H2. cbn [app]. revert H1 H2.
      generalize (sumGroups f (JsMap.set key [r] (JsMap.set key [] m)))
                 (sumGroups f (JsMap.set key [] m)) (sumGroups f m) (f r).
      intros a b c d H1 H2. lra.
    + intros P Hr Hm. apply JsMap_set_Forall; [now repeat constructor |].
      apply JsMap_set_Forall; [constructor | exact Hm].
Qed.

Lemma groupLoop_returns (host : Host) (results : list Result.t) :
  forall m : JsMap.t (list Result.t),
  exists m',
    groupLoop host results m = Return m'
    /\ (forall f, sumGroups f m' == sumGroups f m + sumOf f results)
    /\ (forall P : Result.t -> Prop, Forall P results ->
        Forall (fun kv => Forall P (snd kv)) m ->
        Forall (fun kv => Forall P (snd kv)) m').
Proof.
  induction results as [| r rest IH]; intros m; cbn [groupLoop].
  - exists m. split; [reflexivity | split].
    + intros f. cbn [sumOf]. ring.
    + auto.
  - destruct (groupStep_returns host m r) as (m1 & E1 & S1 & F1).
    rewrite E1. cbn [bind].
    destruct (IH m1) as (m' & E' & S' & F').
    exists m'. split; [exact E' | split].
    + intros f. rewrite S', S1. cbn [sumOf]. ring.
    + intros P HP Hm. inversion HP; subst. apply F'; auto.
Qed.

(** ** The department report *)

Lemma getStudents_In (st : Storage.t) (departmentId : string) (s : Student.t) :
  In s (getStudents st (Some departmentId)) ->
  exists s0,
    In s0 (getFromStorage (Storage.students st) [])
    /\ Student.id s0 = Student.id s
    /\ Student.departmentId s0 = Student.departmentId s
    /\ (departmentId <> EmptyString -> Student.departmentId s = departmentId).
Proof.
  unfold getStudents. intros H. apply in_map_iff in H.
  destruct H as (s0 & <- & Hin). exists s0.
  cbn [Student.id Student.departmentId].
  destruct departmentId as [| c d].
  - repeat split; [exact Hin | congruence].
  - apply filter_In in Hin. destruct Hin as [Hin Hd].
    apply String.eqb_eq in Hd. repeat split; [exact Hin | now intros _].
Qed.

Lemma studentReport_results (results : list Result.t) (level semester : number)
    (student : Student.t) :
  StudentReport.student (studentReport results level semester student) = student
  /\ StudentReport.results (studentReport results level semester student)
     = filter (inSemester (Student.id student) level semester) results.
Proof. split; reflexivity. Qed.

Lemma getResults_inSemester (st : Storage.t) (studentId : string)
    (level semester : number) :
  getResults st studentId level semester
  = filter (inSemester studentId level semester) (storedResults st).
Proof. reflexivity. Qed.

Lemma getResults_resultsOfStudent (st : Storage.t) (studentId : string)
    (level semester : number) (r : Result.t) :
  In r (getResults st studentId level semester) ->
  In r (resultsOfStudent st studentId).
Proof.
  rewrite getResults_inSemester. unfold resultsOfStudent, inSemester.
  rewrite !filter_In, !andb_true_iff. tauto.
Qed.

(** X17.  [getDepartmentReport] returns [null] exactly when no stored
    department has the identifier.  Otherwise it reports the department with
    that identifier and lists, in the order of [getStudents], exactly the
    students [getStudents] returns for the identifier that have at least one
    result for the level and semester, each with the results [getResults]
    returns for them.  For a non-empty identifier these are the stored
    students of that department and no others; for the empty identifier
    (a stored department may have it) [getStudents] does not filter, and the
    students of every department are listed. *)
Theorem getDepartmentReport_lists_students_with_results (st : Storage.t)
    (departmentId : string) (level semester : number) :
  (getDepartmentReport st departmentId level semester = None
   <-> find (fun d => String.eqb (Department.id d) departmentId)
            (getDepartments st) = None)
  /\ forall rep,
       getDepartmentReport st departmentId level semester = Some rep ->
       Department.id (DepartmentReport.department rep) = departmentId
       /\ map StudentReport.student (DepartmentReport.students rep)
          = filter (fun s => match getResults st (Student.id s) level semester with
                             | [] => false
                             | _ => true
                             end)
                   (getStudents st (Some departmentId))
       /\ Forall (fun sr =>
                    StudentReport.results sr
                    = getResults st (Student.id (StudentReport.student sr))
                        level semester
                    /\ StudentReport.results sr <> [])
                 (DepartmentReport.students rep)
       /\ (departmentId <> EmptyString ->
           map Student.id (getStudents st (Some departmentId))
           = map Student.id
               (filter (fun s => String.eqb (Student.departmentId s) departmentId)
                       (getFromStorage (Storage.students st) []))
           /\ Forall (fun sr =>
                        Student.departmentId (StudentReport.student sr)
                        = departmentId)
                     (DepartmentReport.students rep))
       /\ (departmentId = EmptyString ->
           map Student.id (getStudents st (Some departmentId))
           = map Student.id (getFromStorage (Storage.students st) [])
           /\ map Student.departmentId (getStudents st (Some departmentId))
              = map Student.departmentId
                  (getFromStorage (Storage.students st) [])).
Proof.
  unfold getDepartmentReport.
  destruct (find (fun d => String.eqb (Department.id d) departmentId)
                 (getDepartments st)) as [department |] eqn:Hd.
  2: { split; [tauto | discriminate]. }
  split; [split; discriminate |].
  intros rep H. injection H as <-.
  cbn [DepartmentReport.department DepartmentReport.students].
  fold (storedResults st).
  split; [| split; [| split; [| split]]].
  - apply find_some in Hd. now apply String.eqb_eq.
  - generalize (getStudents st (Some departmentId)). intros l.
    induction l as [| s l IH]; cbn [map filter]; [reflexivity |].
    rewrite getResults_inSemester.
    cbn [studentReport StudentReport.results].
    change (filter (fun r => String.eqb (Result.studentId r) (Student.id s)
                             && eqb (Result.level r) level
                             && eqb (Result.semester r) semester)
              (storedResults st))
      with (filter (inSemester (Student.id s) level semester) (storedResults st)).
    destruct (filter (inSemester (Student.id s) level semester) (storedResults st));
      cbn [map]; now rewrite IH.
  - apply Forall_forall. intros sr Hsr. apply filter_In in Hsr.
    destruct Hsr as [Hin Hne]. apply in_map_iff in Hin.
    destruct Hin as (s & <- & Hs).
    destruct (studentReport_results (storedResults st) level semester s)
      as [E1 E2].
    rewrite E1, E2 in *. rewrite getResults_inSemester.
    split; [reflexivity |].
    intros E. rewrite E in Hne. discriminate Hne.
  - intros Hne. split.
    + unfold getStudents. destruct departmentId as [| c d]; [contradiction |].
      rewrite map_map. reflexivity.
    + apply Forall_forall. intros sr Hsr. apply filter_In in Hsr.
      destruct Hsr as [Hin _]. apply in_map_iff in Hin.
      destruct Hin as (s & <- & Hs).
      destruct (studentReport_results (storedResults st) level semester s)
        as [E1 _].
      rewrite E1.
      destruct (getStudents_In _ _ _ Hs) as (s0 & _ & _ & _ & Hdep). auto.
  - intros ->. unfold getStudents. rewrite !map_map. split; reflexivity.
Qed.

Lemma getDepartmentReport_lists_students_with_results_witness :
  exists rep,
    getDepartmentReport sampleStorage "dept1" 100 1 = Some rep
    /\ map Student.id (map StudentReport.student (DepartmentReport.students rep))
       = ["std1"; "std2"]%string
    /\ Forall (fun sr =>
                 Student.departmentId (StudentReport.student sr) = "dept1"%string)
              (DepartmentReport.students rep).
Proof.
  destruct (getDepartmentReport sampleStorage "dept1" 100 1) as [rep |] eqn:E.
  - exists rep. split; [reflexivity |].
    destruct (proj2 (getDepartmentReport_lists_students_with_results
                       sampleStorage "dept1" 100 1) rep E)
      as (_ & Hl & _ & Hdep & _).
    split.
    + rewrite Hl. reflexivity.
    + apply Hdep. discriminate.
  - exfalso. vm_compute in E. discriminate E.
Defined.

(** A stored department may have the empty identifier; its report then lists
    the students of another department. *)
Lemma getDepartmentReport_empty_identifier :
  let st :=
    Storage.mk (Some [Department.mk "" "GEN" "General Studies"]) None None
      (Some [Student.mk "std5" "2025/5555" "Michael Obi" "dept2" None])
      (Some [Result.mk "r1" "std5" 100 1 "MTH101" 2 72 "A" 5 10]) in
  exists rep,
    getDepartmentReport st "" 100 1 = Some rep
    /\ map (fun sr => Student.departmentId (StudentReport.student sr))
           (DepartmentReport.students rep)
       = ["dept2"]%string.
Proof.
  cbv zeta. eexists. split; reflexivity.
Qed.

Lemma find_student_exists (students : list Student.t) (s0 : Student.t)
    (studentId : string) :
  In s0 students -> Student.id s0 = studentId ->
  find (fun s => String.eqb (Student.id s) studentId) students <> None.
Proof.
  intros Hin Hid Hf.
  pose proof (find_none _ _ Hf s0 Hin) as H. cbn beta in H.
  rewrite Hid, String.eqb_refl in H. discriminate H.
Qed.

(** ** Students and curriculum *)

Lemma existsb_matricNo (matricNo : string) (students : list Student.t) :
  existsb (fun s => String.eqb (Student.matricNo s) matricNo) students = true
  <-> In matricNo (map Student.matricNo students).
Proof.
  rewrite existsb_exists, in_map_iff. split.
  - intros (s & Hin & He). apply String.eqb_eq in He. eauto.
  - intros (s & He & Hin). exists s. split; [exact Hin |].
    now apply String.eqb_eq.
Qed.

(** X19.  When a stored student already has the matriculation number,
    [createStudent] throws "Student with this matric number already exists"
    and leaves the storage and the identifier source untouched; otherwise it
    appends one student with the given fields and a newly generated
    identifier, and changes nothing else in the storage.  This holds whatever
    the storage contains.  In consequence [createStudent] keeps matriculation
    numbers unique: if no two stored students share one before the call, none
    do after it. *)
Theorem createStudent_keeps_matric_unique (host : Host) (student : Student.input)
    (w : World) :
  let students := getFromStorage (Storage.students (storage w)) [] in
  let (res, w') := createStudent host student w in
  match res with
  | Throw e =>
    In (Student.inMatricNo student) (map Student.matricNo students)
    /\ e = mkError Error "Student with this matric number already exists"
    /\ w' = w
  | Return s =>
    ~ In (Student.inMatricNo student) (map Student.matricNo students)
    /\ s = Student.mk (idOf host (idCalls w)) (Student.inMatricNo student)
             (Student.inFullName student) (Student.inDepartmentId student)
             (Student.inDepartment student)
    /\ storage w' = Storage.setStudents (students ++ [s]) (storage w)
    /\ idCalls w' = S (idCalls w)
  end
  /\ (NoDup (map Student.matricNo students) ->
      NoDup (map Student.matricNo
               (getFromStorage (Storage.students (storage w')) []))).
Proof.
  intros students. unfold createStudent. fold students.
  destruct (existsb (fun s => String.eqb (Student.matricNo s)
                                (Student.inMatricNo student)) students) eqn:He.
  - split; [| intros Hnd; exact Hnd].
    split; [now apply existsb_matricNo | split; reflexivity].
  - assert (Hn : ~ In (Student.inMatricNo student)
                      (map Student.matricNo students)).
    { intros H. apply existsb_matricNo in H. congruence. }
    cbn [generateId storage idCalls Storage.setStudents Storage.students
         getFromStorage].
    split.
    + split; [exact Hn | split; [reflexivity | split; reflexivity]].
    + intros Hnd. rewrite map_app. cbn [map Student.matricNo].
      apply NoDup_app.
      * exact Hnd.
      * constructor; [intros [] | constructor].
      * intros a Ha [<- | []]. contradiction.
Qed.

Lemma createStudent_keeps_matric_unique_witness :
  fst (createStudent sampleHost
         (Student.mkInput "2025/1111" "Another John" "dept1" None)
         (mkWorld sampleStorage 4))
  = Throw (mkError Error "Student with this matric number already exists")
  /\ NoDup (map Student.matricNo
              (getFromStorage
                 (Storage.students
                    (storage (snd (createStudent sampleHost
                       (Student.mkInput "2025/9999" "Ngozi Eze" "dept1" None)
                       (mkWorld sampleStorage 4))))) [])).
Proof.
  split.
  - pose proof (createStudent_keeps_matric_unique sampleHost
                  (Student.mkInput "2025/1111" "Another John" "dept1" None)
                  (mkWorld sampleStorage 4)) as T.
    cbv zeta in T.
    destruct (createStudent sampleHost
                (Student.mkInput "2025/1111" "Another John" "dept1" None)
                (mkWorld sampleStorage 4)) as [res w'].
    destruct T as [T _].
    destruct res as [s | e].
    + exfalso. destruct T as [T _]. apply T. cbn. auto.
    + destruct T as (_ & -> & _). reflexivity.
  - pose proof (createStudent_keeps_matric_unique sampleHost
                  (Student.mkInput "2025/9999" "Ngozi Eze" "dept1" None)
                  (mkWorld sampleStorage 4)) as T.
    cbv zeta in T.
    destruct (createStudent sampleHost
                (Student.mkInput "2025/9999" "Ngozi Eze" "dept1" None)
                (mkWorld sampleStorage 4)) as [res w'].
    destruct T as [_ T]. apply T.
    repeat constructor; cbn; intuition discriminate.
Defined.

(** X20.  Every row [getCurriculum] returns is for the requested department,
    level and semester and carries the stored course whose identifier is the
    row's [courseId]; a row whose course is not stored is not returned. *)
Theorem getCurriculum_rows_carry_their_course (st : Storage.t)
    (departmentId : string) (level semester : number) :
  Forall (fun c =>
            Curriculum.departmentId c = departmentId
            /\ Curriculum.level c == level
            /\ Curriculum.semester c == semester
            /\ exists crs,
                 Curriculum.course c = Some crs
                 /\ Course.id crs = Curriculum.courseId c
                 /\ In crs (getCourses st))
         (getCurriculum st departmentId level semester)
  /\ (List.length (getCurriculum st departmentId level semester)
      <= List.length (getFromStorage (Storage.curriculum st) []))%nat.
Proof.
  unfold getCurriculum. split.
  - apply Forall_forall. intros c Hc. apply filter_In in Hc.
    destruct Hc as [Hin Hcourse]. apply in_map_iff in Hin.
    destruct Hin as (c0 & <- & Hin0). apply filter_In in Hin0.
    destruct Hin0 as [_ Hm]. rewrite !andb_true_iff in Hm.
    destruct Hm as [[H1 H2] H3].
    apply String.eqb_eq in H1. apply eqb_true in H2. apply eqb_true in H3.
    cbn [Curriculum.departmentId Curriculum.level Curriculum.semester
         Curriculum.course Curriculum.courseId] in *.
    repeat split; try assumption.
    destruct (find (fun crs => String.eqb (Course.id crs) (Curriculum.courseId c0))
                   (getFromStorage (Storage.courses st) [])) as [crs |] eqn:Hf;
      [| discriminate Hcourse].
    exists crs. apply find_some in Hf. destruct Hf as [Hf1 Hf2].
    apply String.eqb_eq in Hf2. auto.
  - eapply Nat.le_trans; [apply filter_length_le |].
    rewrite length_map. apply filter_length_le.
Qed.

(** ** The score form *)

Lemma Qmax_cases (x y : number) : Qmax x y = x \/ Qmax x y = y.
Proof.
  unfold Qmax, GenericMinMax.gmax. destruct (x ?= y); auto.
Qed.

Lemma Qmin_cases (x y : number) : Qmin x y = x \/ Qmin x y = y.
Proof.
  unfold Qmin, GenericMinMax.gmin. destruct (x ?= y); auto.
Qed.

(** Clamping an integer to [0,100] gives an integer of [0,100]. *)
Lemma clamp_int (k : Z) :
  exists z, (0 <= z <= 100)%Z /\ Qmin 100 (Qmax 0 (inject_Z k)) = inject_Z z.
Proof.
  pose proof (Q.le_max_l 0 (inject_Z k)) as H0.
  pose proof (Q.le_min_l 100 (Qmax 0 (inject_Z k))) as H100.
  destruct (Qmin_cases 100 (Qmax 0 (inject_Z k))) as [E | E].
  - exists 100%Z. split; [lia | exact E].
  - rewrite E in H100 |- *.
    destruct (Qmax_cases 0 (inject_Z k)) as [E' | E'].
    + exists 0%Z. split; [lia | exact E'].
    + rewrite E' in H0, H100 |- *. exists k.
      change 0 with (inject_Z 0) in H0. change 100 with (inject_Z 100) in H100.
      rewrite <- Zle_Qle in H0, H100. split; [lia | reflexivity].
Qed.

Lemma numValue_int (host : Host) (value : string) :
  value <> EmptyString ->
  exists z, (0 <= z <= 100)%Z /\ numValue host value = Some (inject_Z z).
Proof.
  intros Hne. unfold numValue. destruct value as [| c rest]; [contradiction |].
  set (parsed := parseInt host (String c rest)).
  assert (Hk : exists k, or_number (option_map inject_Z parsed) 0 = inject_Z k).
  { destruct parsed as [k |]; cbn [option_map or_number].
    - destruct (eqb (inject_Z k) 0); [exists 0%Z | exists k]; reflexivity.
    - exists 0%Z. reflexivity. }
  destruct Hk as [k ->]. destruct (clamp_int k) as (z & Hz & ->). eauto.
Qed.

(** X21.  The grade preview of the score form never throws: it is empty for
    an empty score and for a score below 0 or above 100, and for a score in
    [0,100] it is the letter and the point [scoreToGrade] and [scoreToPoint]
    return.  The value the form keeps for a non-empty input is an integer of
    [0,100], whatever [parseInt] makes of the text, so that its preview is
    always the letter and point of the band the integer lies in. *)
Theorem score_form_preview (host : Host) (value : string) :
  getGradePreview None = Return None
  /\ (forall score,
        score < 0 \/ 100 < score -> getGradePreview (Some score) = Return None)
  /\ (forall score,
        0 <= score <= 100 ->
        exists g p,
          scoreToGrade score = Return g
          /\ scoreToPoint score = Return p
          /\ getGradePreview (Some score) = Return (Some (g, p)))
  /\ (value <> EmptyString ->
      exists z,
        (0 <= z <= 100)%Z
        /\ numValue host value = Some (inject_Z z)
        /\ getGradePreview (numValue host value)
           = Return (Some (letterOfInt z, point (bandOfInt z)))).
Proof.
  split; [reflexivity | split; [| split]].
  - intros s Hs. unfold getGradePreview.
    now rewrite (proj2 (range_check_true s) Hs).
  - intros s Hs. unfold getGradePreview.
    rewrite (proj2 (range_check_false s) Hs).
    unfold scoreToPoint. rewrite (scoreToGrade_in_range s Hs). cbn [bind].
    eauto.
  - intros Hne. destruct (numValue_int host value Hne) as (z & Hz & E).
    exists z. split; [exact Hz | split; [exact E |]].
    rewrite E. unfold getGradePreview.
    rewrite (range_check_int z Hz), (scoreToGrade_int z Hz),
            (scoreToPoint_int z Hz).
    reflexivity.
Qed.

Lemma score_form_preview_witness :
  getGradePreview (Some 101) = Return None
  /\ (exists g p, getGradePreview (Some 64.5) = Return (Some (g, p)))
  /\ exists z,
       (0 <= z <= 100)%Z
       /\ numValue sampleHost "57" = Some (inject_Z z)
       /\ getGradePreview (numValue sampleHost "57")
          = Return (Some (letterOfInt z, point (bandOfInt z))).
Proof.
  destruct (score_form_preview sampleHost "57") as (_ & Hout & Hin & Hval).
  split; [| split].
  - apply Hout. right. reflexivity.
  - destruct (Hin 64.5) as (g & p & _ & _ & E).
    + split; discriminate.
    + exists g, p. exact E.
  - apply Hval. discriminate.
Defined.

(** ** The figures of the report page *)

Lemma Math_max_upper (xs : list number) (last : number) :
  last <= JsArray.Math_max xs last
  /\ Forall (fun x => x <= JsArray.Math_max xs last) xs.
Proof.
  unfold JsArray.Math_max.
  induction xs as [| x xs [IH1 IH2]]; cbn [fold_right].
  - split; [apply Qle_refl | constructor].
  - split.
    + eapply Qle_trans; [exact IH1 | apply Q.le_max_r].
    + constructor; [apply Q.le_max_l |].
      eapply Forall_impl; [| exact IH2]. cbn beta. intros y Hy.
      eapply Qle_trans; [exact Hy | apply Q.le_max_r].
Qed.

Lemma Math_min_lower (xs : list number) (x : number) :
  JsArray.Math_min x xs <= x
  /\ Forall (fun y => JsArray.Math_min x xs <= y) xs.
Proof.
  unfold JsArray.Math_min. revert x.
  induction xs as [| y xs IH]; intros x; cbn [fold_left].
  - split; [apply Qle_refl | constructor].
  - destruct (IH (Qmin x y)) as [IH1 IH2]. split.
    + eapply Qle_trans; [exact IH1 | apply Q.le_min_l].
    + constructor; [| exact IH2].
      eapply Qle_trans; [exact IH1 | apply Q.le_min_r].
Qed.

Lemma Math_max_attained (xs : list number) (last : number) :
  JsArray.Math_max xs last = last \/ In (JsArray.Math_max xs last) xs.
Proof.
  unfold JsArray.Math_max.
  induction xs as [| x xs IH]; cbn [fold_right]; [now left |].
  destruct (Qmax_cases x (fold_right Qmax last xs)) as [E | E]; rewrite E.
  - right. now left.
  - destruct IH as [IH | IH]; [now left | right; now right].
Qed.

Lemma Math_min_attained (xs : list number) (x : number) :
  In (JsArray.Math_min x xs) (x :: xs).
Proof.
  unfold JsArray.Math_min. revert x.
  induction xs as [| y xs IH]; intros x; cbn [fold_left]; [now left |].
  destruct (IH (Qmin x y)) as [E | Hin].
  - rewrite <- E. destruct (Qmin_cases x y) as [E' | E']; rewrite E'.
    + now left.
    + right. now left.
  - right. now right.
Qed.

(** X22.  On the report page the lowest GPA is at most the GPA of every
    listed student and the highest GPA is at least it; the highest GPA is
    never negative.  For a non-empty list the lowest GPA is the GPA of a
    listed student and is at most the highest, and the highest is the GPA of
    a listed student or 0; for the empty list both are 0. *)
Theorem report_statistics_ordered (students : list StudentReport.t) :
  0 <= highestGPA students
  /\ Forall (fun s => lowestGPA students <= StudentReport.gpa s
                      /\ StudentReport.gpa s <= highestGPA students) students
  /\ (students <> [] ->
      In (lowestGPA students) (map StudentReport.gpa students)
      /\ lowestGPA students <= highestGPA students
      /\ (In (highestGPA students) (map StudentReport.gpa students)
          \/ highestGPA students = 0))
  /\ (students = [] -> lowestGPA students = 0 /\ highestGPA students = 0).
Proof.
  unfold lowestGPA, highestGPA.
  set (gpas := map StudentReport.gpa students).
  destruct (Math_max_upper gpas 0) as [Hz Hmax].
  assert (Hmin : Forall (fun y => match gpas with
                                  | [] => 0
                                  | x :: xs => JsArray.Math_min x xs
                                  end <= y) gpas).
  { destruct gpas as [| x xs]; [constructor |].
    destruct (Math_min_lower xs x) as [H1 H2]. now constructor. }
  assert (Hall : Forall (fun y => match gpas with
                                  | [] => 0
                                  | x :: xs => JsArray.Math_min x xs
                                  end <= y
                                  /\ y <= JsArray.Math_max gpas 0) gpas).
  { rewrite Forall_forall in *. intros y Hy. split; auto. }
  split; [exact Hz | split; [| split]].
  - apply Forall_forall. intros s Hs. rewrite Forall_forall in Hall.
    apply Hall. unfold gpas. now apply in_map.
  - intros Hne.
    destruct gpas as [| x xs] eqn:Eg.
    { destruct students; [contradiction | discriminate Eg]. }
    split; [apply Math_min_attained | split].
    + apply Forall_inv in Hall. destruct Hall as [H1 H2].
      destruct (Math_min_lower xs x) as [H3 _].
      eapply Qle_trans; [exact H3 | exact H2].
    + destruct (Math_max_attained (x :: xs) 0) as [E | E]; [now right | now left].
  - intros ->. split; reflexivity.
Qed.

Lemma report_statistics_ordered_witness :
  lowestGPA [StudentReport.mk (Student.mk "a" "1" "A" "d" None) 3.5 3.2 [];
             StudentReport.mk (Student.mk "b" "2" "B" "d" None) 4.25 4 []]
  <= highestGPA [StudentReport.mk (Student.mk "a" "1" "A" "d" None) 3.5 3.2 [];
                 StudentReport.mk (Student.mk "b" "2" "B" "d" None) 4.25 4 []].
Proof.
  apply (proj1 (proj2 (proj2 (report_statistics_ordered
           [StudentReport.mk (Student.mk "a" "1" "A" "d" None) 3.5 3.2 [];
            StudentReport.mk (Student.mk "b" "2" "B" "d" None) 4.25 4 []])))).
  discriminate.
Defined.

(** ** The semesters of a student *)







Lemma concat_groups_set (key : string) (group : list Result.t)
    (m : JsMap.t (list Result.t)) :
  Permutation
    (List.concat (map snd (JsMap.set key group m))
     ++ match JsMap.get key m with Some old => old | None => [] end)
    (List.concat (map snd m) ++ group).
Proof.
  unfold JsMap.get.
  induction m as [| [k old] m IH];
    cbn [JsMap.set find fst map snd List.concat option_map].
  - now rewrite !app_nil_r.
  - destruct (String.eqb k key); cbn [map snd List.concat option_map].
    + rewrite <- (app_assoc old).
      etransitivity; [apply Permutation_app_comm |].
      apply Permutation_app_head, Permutation_app_comm.
    + rewrite <- !app_assoc. now apply Permutation_app_head.
Qed.

Lemma groupStep_perm (host : Host) (m m' : JsMap.t (list Result.t)) (r : Result.t) :
  groupStep host m r = Return m' ->
  Permutation (List.concat (map snd m')) (List.concat (map snd m) ++ [r])
  /\ (Forall (fun kv => snd kv <> []) m -> Forall (fun kv => snd kv <> []) m').
Proof.
  unfold groupStep. set (key := semesterKey host r).
  destruct (JsMap.has key m) eqn:Hh; cbn [negb].
  - destruct (JsMap_has_get key m Hh) as [group Hg]. rewrite Hg.
    intros H. injection H as <-. split.
    + pose proof (concat_groups_set key (group ++ [r]) m) as H.
      rewrite Hg, app_assoc in H.
      apply Permutation_app_inv_r with (l := group).
      rewrite H. rewrite <- !app_assoc.
      apply Permutation_app_head, Permutation_app_comm.
    + intros Hm. apply (JsMap_set_Forall (fun g => g <> [])); [| exact Hm].
      destruct group; discriminate.
  - rewrite JsMap_get_set. intros H. injection H as <-. split.
    + pose proof (concat_groups_set key ([] ++ [r]) (JsMap.set key [] m)) as H1.
      pose proof (concat_groups_set key [] m) as H2.
      rewrite JsMap_get_set in H1.
      assert (Hn : JsMap.get key m = None).
      { clear -Hh. unfold JsMap.has, JsMap.get in *.
        induction m as [| [k v] m IH]; cbn [existsb find fst] in *; [reflexivity |].
        destruct (String.eqb k key); cbn [orb] in Hh; [discriminate | auto]. }
      rewrite Hn in H2. rewrite !app_nil_r in H1, H2. cbn [app] in H1 |- *.
      rewrite H1. apply Permutation_app_tail.
      rewrite <- (app_nil_r (List.concat (map snd m))). exact H2.
    + intros Hm.
      assert (E : JsMap.set key [r] (JsMap.set key [] m)
                  = JsMap.set key [r] m).
      { clear. induction m as [| [k v] m IH]; cbn [JsMap.set].
        - now rewrite String.eqb_refl.
        - destruct (String.eqb k key) eqn:E; cbn [JsMap.set]; rewrite E;
            [reflexivity | now rewrite IH]. }
      cbn [app]. rewrite E.
      apply (JsMap_set_Forall (fun g => g <> [])); [discriminate | exact Hm].
Qed.

Lemma groupLoop_perm (host : Host) (results : list Result.t) :
  forall m m' : JsMap.t (list Result.t),
  groupLoop host results m = Return m' ->
  Permutation (List.concat (map snd m')) (List.concat (map snd m) ++ results)
  /\ (Forall (fun kv => snd kv <> []) m -> Forall (fun kv => snd kv <> []) m').
Proof.
  induction results as [| r rest IH]; intros m m'; cbn [groupLoop].
  - intros H. injection H as <-. rewrite app_nil_r. auto.
  - destruct (groupStep host m r) as [m1 | e] eqn:E1; cbn [bind]; [| discriminate].
    intros H. destruct (groupStep_perm _ _ _ _ E1) as [P1 N1].
    destruct (IH _ _ H) as [P2 N2]. split; [| auto].
    rewrite P2, P1, <- app_assoc. reflexivity.
Qed.


Lemma sumOf_perm {A : Type} (f : A -> number) (l l' : list A) :
  Permutation l l' -> sumOf f l == sumOf f l'.
Proof.
  induction 1 as [| x l l' _ IH | x y l | l l' l'' _ IH1 _ IH2]; cbn [sumOf].
  - reflexivity.
  - now rewrite IH.
  - ring.
  - now rewrite IH1.
Qed.





(** ** Binary64 arithmetic *)

(** Powers of two. *)
Lemma pow2_pos (e : Z) : 0 < 2 ^ e.
Proof. apply Qpower_0_lt. reflexivity. Qed.

Lemma pow2_add (a b : Z) : 2 ^ (a + b) == 2 ^ a * 2 ^ b.
Proof. apply Qpower_plus. discriminate. Qed.

Lemma pow2_opp (a : Z) : 2 ^ (- a) == / 2 ^ a.
Proof. apply Qpower_opp. Qed.

Lemma pow2_inject (n : Z) : (0 <= n)%Z -> 2 ^ n == inject_Z (2 ^ n).
Proof. intros H. symmetry. apply (Zpower_Qpower 2 n H). Qed.

Lemma pow2_le (a b : Z) : (a <= b)%Z -> 2 ^ a <= 2 ^ b.
Proof. intros H. apply Qpower_le_compat_l; [exact H | discriminate]. Qed.

Lemma pow2_cancel (a : Z) : 2 ^ a * 2 ^ (- a) == 1.
Proof.
  rewrite <- pow2_add. now replace (a + - a)%Z with 0%Z by lia.
Qed.

Lemma inv_le_swap (a b : Q) : 0 < a -> / a <= b -> / b <= a.
Proof.
  intros Ha H.
  assert (Hb : 0 < b).
  { apply Qlt_le_trans with (/ a); [now apply Qinv_lt_0_compat | exact H]. }
  apply Qle_shift_inv_r; [exact Hb |].
  assert (E : / a * a == 1) by (field; lra).
  rewrite <- E. rewrite (Qmult_comm a b).
  apply Qmult_le_compat_r; [exact H | lra].
Qed.

Lemma inv_lt_swap (a b : Q) : 0 < a -> 0 < b -> b < / a -> a < / b.
Proof.
  intros Ha Hb H.
  apply Qlt_shift_inv_l; [exact Hb |].
  assert (E : / a * a == 1) by (field; lra).
  rewrite <- E. rewrite (Qmult_comm a b).
  apply Qmult_lt_compat_r; [exact Ha | exact H].
Qed.

Lemma ilog2_spec (q : Q) :
  0 < q -> 2 ^ Double.ilog2 q <= q /\ q < 2 ^ (Double.ilog2 q + 1).
Proof.
  intros Hq. unfold Double.ilog2.
  destruct (Qle_bool 1 q) eqn:E.
  - apply Qle_bool_iff in E.
    assert (Hf : (1 <= Qfloor q)%Z).
    { change 1%Z with (Qfloor 1). now apply Qfloor_resp_le. }
    destruct (Z.log2_spec (Qfloor q)) as [L1 L2]; [lia |].
    pose proof (Z.log2_nonneg (Qfloor q)) as L0.
    rewrite !pow2_inject by lia. split.
    + apply Qle_trans with (inject_Z (Qfloor q)); [| apply Qfloor_le].
      now rewrite <- Zle_Qle.
    + apply Qlt_le_trans with (inject_Z (Qfloor q + 1)); [apply Qlt_floor |].
      rewrite <- Zle_Qle. rewrite <- Z.add_1_r in L2. lia.
  - assert (Hlt : q < 1).
    { apply Qnot_le_lt. intros H. apply Qle_bool_iff in H. congruence. }
    set (c := Qceiling (/ q)).
    assert (Hinv : 1 < / q).
    { apply Qlt_shift_inv_l; [exact Hq |]. lra. }
    assert (Hc : (1 < c)%Z).
    { rewrite Zlt_Qlt. apply Qlt_le_trans with (/ q); [exact Hinv |].
      apply Qle_ceiling. }
    destruct (Z.log2_up_spec c Hc) as [M1 M2].
    assert (M0 : (0 < Z.log2_up c)%Z) by (apply Z.log2_up_pos; exact Hc).
    set (M := Z.log2_up c) in *.
    split.
    + rewrite pow2_opp, pow2_inject by lia.
      apply inv_le_swap; [exact Hq |].
      apply Qle_trans with (inject_Z c); [apply Qle_ceiling |].
      now rewrite <- Zle_Qle.
    + replace (- M + 1)%Z with (- (Z.pred M))%Z by lia.
      rewrite pow2_opp, pow2_inject by lia.
      apply inv_lt_swap; [exact Hq | |].
      * rewrite <- pow2_inject by lia. apply pow2_pos.
      * apply Qle_lt_trans with (inject_Z (c - 1)); [| apply Qceiling_lt].
        rewrite <- Zle_Qle. lia.
Qed.

Lemma nearestEven_comp (x y : Q) : x == y -> Double.nearestEven x = Double.nearestEven y.
Proof.
  intros H. unfold Double.nearestEven.
  rewrite (Qfloor_comp _ _ H).
  assert (E : x - inject_Z (Qfloor y) == y - inject_Z (Qfloor y)) by now rewrite H.
  now rewrite (Qcompare_comp _ _ E _ _ (Qeq_refl (1 # 2))).
Qed.

Lemma nearestEven_near (x : Q) : Qabs (inject_Z (Double.nearestEven x) - x) <= 1 # 2.
Proof.
  unfold Double.nearestEven.
  pose proof (Qfloor_le x) as H1. pose proof (Qlt_floor x) as H2.
  rewrite inject_Z_plus in H2. change (inject_Z 1) with 1 in H2.
  apply Qabs_Qle_condition.
  destruct (Qcompare_spec (x - inject_Z (Qfloor x)) (1 # 2)) as [E | E | E].
  - destruct (Z.even (Qfloor x));
      [| rewrite inject_Z_plus; change (inject_Z 1) with 1]; lra.
  - lra.
  - rewrite inject_Z_plus. change (inject_Z 1) with 1. lra.
Qed.

Lemma nearestEven_Z (z : Z) : Double.nearestEven (inject_Z z) = z.
Proof.
  unfold Double.nearestEven. rewrite Qfloor_Z.
  destruct (Qcompare_spec (inject_Z z - inject_Z z) (1 # 2)) as [E | E | E].
  - exfalso. lra.
  - reflexivity.
  - exfalso. lra.
Qed.

Lemma ilog2_comp (x y : Q) : x == y -> Double.ilog2 x = Double.ilog2 y.
Proof.
  intros H. unfold Double.ilog2.
  rewrite (Qleb_comp _ _ (Qeq_refl 1) _ _ H), (Qfloor_comp _ _ H).
  assert (E : / x == / y) by now rewrite H.
  now rewrite (Qceiling_comp _ _ E).
Qed.

Lemma exponent_comp (x y : Q) : x == y -> Double.exponent x = Double.exponent y.
Proof.
  intros H. unfold Double.exponent.
  assert (E : Qabs x == Qabs y) by now rewrite H.
  now rewrite (ilog2_comp _ _ E).
Qed.

Lemma round_comp (x y : Q) : x == y -> Double.round x = Double.round y.
Proof.
  intros H. unfold Double.round.
  rewrite (Qeqb_comp _ _ H _ _ (Qeq_refl 0)).
  rewrite (exponent_comp _ _ H).
  assert (E : x / 2 ^ Double.exponent y == y / 2 ^ Double.exponent y) by now rewrite H.
  now rewrite (nearestEven_comp _ _ E).
Qed.

Lemma round_0 : Double.round 0 = 0.
Proof. reflexivity. Qed.

(** The rounding error is at most half a unit in the last place. *)
Lemma round_error (q : Q) :
  Qabs (Double.round q - q) <= 2 ^ Double.exponent q / 2.
Proof.
  unfold Double.round.
  destruct (Qeq_bool q 0) eqn:E.
  - apply Qeq_bool_iff in E.
    pose proof (pow2_pos (Double.exponent q)) as Hp.
    set (p := 2 ^ Double.exponent q) in *.
    assert (E2 : p / 2 == (1 # 2) * p) by field.
    rewrite E2. apply Qabs_Qle_condition. split; lra.
  - set (e := Double.exponent q).
    pose proof (pow2_pos e) as Hp.
    pose proof (nearestEven_near (q / 2 ^ e)) as Hn.
    apply Qabs_Qle_condition in Hn. apply Qabs_Qle_condition.
    set (n := inject_Z (Double.nearestEven (q / 2 ^ e))) in *.
    assert (Hq : q == q / 2 ^ e * 2 ^ e) by (field; lra).
    set (y := q / 2 ^ e) in *. set (p := 2 ^ e) in *.
    assert (E1 : n * p - q == (n - y) * p) by (rewrite Hq at 1; ring).
    rewrite E1.
    assert (E2 : p / 2 == (1 # 2) * p) by field.
    rewrite E2. split; nra.
Qed.

Lemma ilog2_Z (a : Z) : (1 <= a)%Z -> Double.ilog2 (inject_Z a) = Z.log2 a.
Proof.
  intros H. unfold Double.ilog2.
  assert (E : Qle_bool 1 (inject_Z a) = true).
  { apply Qle_bool_iff. change 1 with (inject_Z 1). now rewrite <- Zle_Qle. }
  now rewrite E, Qfloor_Z.
Qed.

(** Integers below 2^53 in absolute value are doubles. *)
Lemma round_Z (z : Z) :
  (Z.abs z < 2 ^ 53)%Z -> Double.round (inject_Z z) == inject_Z z.
Proof.
  intros H. unfold Double.round.
  destruct (Qeq_bool (inject_Z z) 0) eqn:E.
  - apply Qeq_bool_iff in E. now rewrite E.
  - assert (Hz : z <> 0%Z).
    { intros ->. discriminate E. }
    unfold Double.exponent.
    change (Qabs (inject_Z z)) with (inject_Z (Z.abs z)).
    rewrite ilog2_Z by lia.
    assert (HL : (Z.log2 (Z.abs z) < 53)%Z).
    { apply Z.log2_lt_pow2; lia. }
    set (e := Z.max (Z.log2 (Z.abs z) - 52) (-1074)).
    assert (He : (e <= 0)%Z) by lia.
    assert (Hd : inject_Z z / 2 ^ e == inject_Z (z * 2 ^ (- e))).
    { rewrite inject_Z_mult, <- pow2_inject by lia.
      rewrite pow2_opp. reflexivity. }
    rewrite (nearestEven_comp _ _ Hd), nearestEven_Z.
    rewrite inject_Z_mult, <- pow2_inject by lia.
    rewrite <- Qmult_assoc, (Qmult_comm (2 ^ (- e))), pow2_cancel. ring.
Qed.

(** In the normal range the rounding error is at most 2^-53 of the value. *)
Lemma round_relative (q : Q) :
  2 ^ (-1022) <= q ->
  Qabs (Double.round q - q) <= q * (1 # 9007199254740992).
Proof.
  intros Hn.
  assert (Hq : 0 < q).
  { apply Qlt_le_trans with (2 ^ (-1022)); [apply pow2_pos | exact Hn]. }
  eapply Qle_trans; [apply round_error |].
  unfold Double.exponent.
  assert (Ea : Qabs q == q) by (apply Qabs_pos; lra).
  rewrite (ilog2_comp _ _ Ea).
  destruct (ilog2_spec q Hq) as [L1 L2].
  set (L := Double.ilog2 q) in *.
  assert (HL : (-1022 < L + 1)%Z).
  { apply (Qpower_lt_compat_l_inv 2); [| reflexivity].
    eapply Qle_lt_trans; [exact Hn | exact L2]. }
  replace (Z.max (L - 52) (-1074)) with (L + -52)%Z by lia.
  rewrite pow2_add.
  change (2 ^ (-52)) with (1 # 4503599627370496).
  pose proof (pow2_pos L) as Hp. set (p := 2 ^ L) in *.
  apply Qle_shift_div_r; [reflexivity |]. nra.
Qed.

Lemma normal_of_ge (q : Q) : (1 # 18014398509481984) <= q -> 2 ^ (-1022) <= q.
Proof.
  intros H. apply Qle_trans with (2 ^ (-54)); [| exact H].
  apply pow2_le. lia.
Qed.

(** [Math.round] of the double [(P / U) * 100] is an integer nearest to the
    exact [100 * P / U]: the two roundings move the value by less than the
    distance [1 / (2 * U)] that separates a non-tie from the nearest tie. *)
Lemma average_hundredths (P U : Z) :
  (0 <= P <= 2 ^ 43)%Z -> (0 < U < 2 ^ 53)%Z ->
  Qabs (inject_Z (Qfloor (Double.mul (Double.div (inject_Z P) (inject_Z U)) 100
                          + (1 # 2)))
        - 100 * (inject_Z P / inject_Z U)) <= 1 # 2.
Proof.
  intros HP HU.
  assert (HUq : 0 < inject_Z U).
  { change 0 with (inject_Z 0). rewrite <- Zlt_Qlt. lia. }
  destruct (Z.eq_dec P 0) as [-> | HP0].
  - unfold Double.div, Double.mul.
    assert (E1 : inject_Z 0 / inject_Z U == 0) by (field; lra).
    rewrite (round_comp _ _ E1), round_0.
    assert (E2 : 0 * 100 == 0) by ring.
    rewrite (round_comp _ _ E2), round_0.
    rewrite E1. vm_compute. discriminate.
  - set (Pq := inject_Z P). set (Uq := inject_Z U) in *.
    assert (HPq : 1 <= Pq <= 8796093022208).
    { unfold Pq. split.
      - change 1 with (inject_Z 1). rewrite <- Zle_Qle. lia.
      - change 8796093022208 with (inject_Z (2 ^ 43)). rewrite <- Zle_Qle. lia. }
    assert (HUb : Uq <= 9007199254740992).
    { unfold Uq. change 9007199254740992 with (inject_Z (2 ^ 53)).
      rewrite <- Zle_Qle. lia. }
    set (x := Pq / Uq).
    assert (Hx : x * Uq == Pq) by (unfold x; field; lra).
    assert (Hx0 : 0 < x) by nra.
    unfold Double.div, Double.mul. fold x.
    pose proof (round_relative x) as Hg.
    set (g := Double.round x) in *.
    assert (Hg' : Qabs (g - x) <= x * (1 # 9007199254740992)).
    { apply Hg. apply normal_of_ge. nra. }
    clear Hg. apply Qabs_Qle_condition in Hg'.
    pose proof (round_relative (g * 100)) as Hh.
    set (h := Double.round (g * 100)) in *.
    assert (Hh' : Qabs (h - g * 100) <= g * 100 * (1 # 9007199254740992)).
    { apply Hh. apply normal_of_ge. nra. }
    clear Hh. apply Qabs_Qle_condition in Hh'.
    pose proof (Qfloor_le (h + (1 # 2))) as K1.
    pose proof (Qlt_floor (h + (1 # 2))) as K2.
    set (k := Qfloor (h + (1 # 2))) in *.
    rewrite inject_Z_plus in K2. change (inject_Z 1) with 1 in K2.
    assert (D : -1 < 2 * Uq * h - 200 * Pq < 1).
    { assert (D1 : 2 * Uq * h - 200 * Pq == 2 * Uq * (h - 100 * x)).
      { rewrite <- Hx. ring. }
      rewrite D1.
      assert (B : 2 * (x * Uq) * (300 * (1 # 9007199254740992)) < 1).
      { rewrite Hx. nra. }
      split; nra. }
    assert (Z1 : (2 * k * U <= 200 * P + U)%Z).
    { apply Z.lt_succ_r. rewrite Zlt_Qlt. unfold Z.succ.
      rewrite !inject_Z_plus, !inject_Z_mult.
      fold Pq Uq. change (inject_Z 1) with 1. change (inject_Z 2) with 2.
      change (inject_Z 200) with 200. nra. }
    assert (Z2 : (200 * P <= 2 * k * U + U)%Z).
    { apply Z.lt_succ_r. rewrite Zlt_Qlt. unfold Z.succ.
      rewrite !inject_Z_plus, !inject_Z_mult.
      fold Pq Uq. change (inject_Z 1) with 1. change (inject_Z 2) with 2.
      change (inject_Z 200) with 200. nra. }
    rewrite Zle_Qle in Z1, Z2.
    rewrite !inject_Z_plus, !inject_Z_mult in Z1, Z2.
    fold Pq Uq in Z1, Z2.
    change (inject_Z 2) with 2 in *. change (inject_Z 200) with 200 in *.
    apply Qabs_Qle_condition.
    assert (G : (inject_Z k - 100 * x) * (2 * Uq) == 2 * inject_Z k * Uq - 200 * Pq).
    { rewrite <- Hx. ring. }
    split.
    + apply (Qmult_le_r _ _ (2 * Uq)); [lra |]. rewrite G. lra.
    + apply (Qmult_le_r _ _ (2 * Uq)); [lra |]. rewrite G. lra.
Qed.

(** ** Whole numbers are added and multiplied exactly *)

Lemma isWhole_spec (x : number) :
  isWhole x = true <-> exists n : Z, (0 <= n)%Z /\ x == inject_Z n.
Proof.
  unfold isWhole. rewrite andb_true_iff, Qle_bool_iff, Qeq_bool_iff. split.
  - intros [H0 E]. exists (Qfloor x). split; [| now symmetry].
    rewrite Zle_Qle. now rewrite E.
  - intros (n & Hn & E). split.
    + rewrite E. change 0 with (inject_Z 0). now rewrite <- Zle_Qle.
    + now rewrite (Qfloor_comp _ _ E), Qfloor_Z.
Qed.

Lemma isWhole_comp (x y : number) : x == y -> isWhole x = isWhole y.
Proof.
  intros H. unfold isWhole.
  rewrite (Qleb_comp _ _ (Qeq_refl 0) _ _ H), (Qfloor_comp _ _ H).
  now rewrite (Qeqb_comp _ _ (Qeq_refl (inject_Z (Qfloor y))) _ _ H).
Qed.

Lemma isWhole_nonneg (x : number) : isWhole x = true -> 0 <= x.
Proof.
  unfold isWhole. rewrite andb_true_iff, Qle_bool_iff. tauto.
Qed.

Lemma isWhole_0 : isWhole 0 = true.
Proof. reflexivity. Qed.

(** A whole number up to [MAX_SAFE_INTEGER] is a double. *)
Lemma round_whole (x : number) :
  isWhole x = true -> x <= MAX_SAFE_INTEGER -> Double.round x == x /\ isWhole (Double.round x) = true.
Proof.
  intros Hw Hb. destruct (proj1 (isWhole_spec x) Hw) as (n & Hn & E).
  assert (Hr : Double.round x == x).
  { rewrite (round_comp _ _ E), E. apply round_Z.
    rewrite E in Hb. unfold MAX_SAFE_INTEGER in Hb.
    change 9007199254740991 with (inject_Z 9007199254740991) in Hb.
    rewrite <- Zle_Qle in Hb. change (2 ^ 53)%Z with 9007199254740992%Z. lia. }
  split; [exact Hr |]. now rewrite (isWhole_comp _ _ Hr).
Qed.

Lemma isWhole_plus (x y : number) :
  isWhole x = true -> isWhole y = true -> isWhole (x + y) = true.
Proof.
  rewrite !isWhole_spec. intros (m & Hm & Ex) (n & Hn & Ey).
  exists (m + n)%Z. split; [lia |]. now rewrite inject_Z_plus, Ex, Ey.
Qed.

Lemma isWhole_mult (x y : number) :
  isWhole x = true -> isWhole y = true -> isWhole (x * y) = true.
Proof.
  rewrite !isWhole_spec. intros (m & Hm & Ex) (n & Hn & Ey).
  exists (m * n)%Z. split; [lia |]. now rewrite inject_Z_mult, Ex, Ey.
Qed.

Lemma add_whole (x y : number) :
  isWhole x = true -> isWhole y = true -> x + y <= MAX_SAFE_INTEGER ->
  Double.add x y == x + y /\ isWhole (Double.add x y) = true.
Proof.
  intros Hx Hy Hb. apply round_whole; [now apply isWhole_plus | exact Hb].
Qed.

Lemma mul_whole (x y : number) :
  isWhole x = true -> isWhole y = true -> x * y <= MAX_SAFE_INTEGER ->
  Double.mul x y == x * y /\ isWhole (Double.mul x y) = true.
Proof.
  intros Hx Hy Hb. apply round_whole; [now apply isWhole_mult | exact Hb].
Qed.

Lemma sumOf_whole {A : Type} (f : A -> number) (l : list A) :
  Forall (fun x => isWhole (f x) = true) l -> isWhole (sumOf f l) = true.
Proof.
  induction 1 as [| x l Hx _ IH]; cbn [sumOf]; [reflexivity |].
  now apply isWhole_plus.
Qed.

(** A [reduce] that adds whole numbers computes their exact sum, as long as
    the sum stays within [MAX_SAFE_INTEGER]. *)
Lemma fold_add_whole {A : Type} (f : A -> number) (l : list A) (a : number) :
  isWhole a = true ->
  Forall (fun x => isWhole (f x) = true) l ->
  a + sumOf f l <= MAX_SAFE_INTEGER ->
  fold_left (fun sum x => Double.add sum (f x)) l a == a + sumOf f l.
Proof.
  intros Ha Hl. revert a Ha.
  induction Hl as [| x l Hx Hl IH]; intros a Ha Hb; cbn [fold_left sumOf] in *.
  - ring.
  - pose proof (isWhole_nonneg _ (sumOf_whole f l Hl)) as Hs.
    destruct (add_whole a (f x) Ha Hx) as [E W]; [lra |].
    rewrite (IH (Double.add a (f x)) W).
    + rewrite E. ring.
    + rewrite E. lra.
Qed.

Lemma reduce_add_whole {A : Type} (f : A -> number) (l : list A) :
  Forall (fun x => isWhole (f x) = true) l ->
  sumOf f l <= MAX_SAFE_INTEGER ->
  fold_left (fun sum x => Double.add sum (f x)) l 0 == sumOf f l.
Proof.
  intros Hl Hb. rewrite (fold_add_whole f l 0 isWhole_0 Hl); [ring | lra].
Qed.

(** ** The averages on whole numbers *)

Lemma sumOf_term_le {A : Type} (f : A -> number) (l : list A) (x : A) :
  Forall (fun y => 0 <= f y) l -> In x l -> f x <= sumOf f l.
Proof.
  induction 1 as [| y l Hy Hl IH]; cbn [sumOf In]; [contradiction |].
  pose proof (sumOf_nonneg f l Hl) as Hs.
  intros [-> | Hin]; [lra | specialize (IH Hin); lra].
Qed.

Lemma wholeCourse_fields (results : list ScoredCourse) :
  forallb wholeCourse results = true ->
  Forall (fun r => isWhole (gradePoint r) = true /\ isWhole (courseUnit r) = true)
         results.
Proof.
  intros H. apply Forall_forall. intros r Hr.
  apply (proj1 (forallb_forall _ _) H) in Hr.
  now apply andb_true_iff in Hr.
Qed.

Lemma wholeCourse_nonneg (results : list ScoredCourse) :
  forallb wholeCourse results = true ->
  Forall (fun r => 0 <= courseUnit r) results
  /\ Forall (fun r => 0 <= gradePoint r * courseUnit r) results.
Proof.
  intros H. apply wholeCourse_fields in H.
  split; (eapply Forall_impl; [| exact H]); cbn beta; intros r [Hg Hu].
  - now apply isWhole_nonneg.
  - apply isWhole_nonneg. now apply isWhole_mult.
Qed.

(** Without units there are no points. *)
Lemma no_units_no_points (results : list ScoredCourse) :
  Forall (fun r => 0 <= courseUnit r) results ->
  sumUnits results == 0 -> sumPoints results == 0.
Proof.
  intros Hn Hz. unfold sumUnits, sumPoints in *.
  pose proof (sumOf_zero _ _ Hn Hz) as Hall. clear Hn Hz.
  induction Hall as [| r l Hr _ IH]; cbn [sumOf]; [reflexivity |].
  rewrite IH, Hr. ring.
Qed.

(** The products of the point total are exact. *)
Lemma points_exact (results : list ScoredCourse) :
  forallb wholeCourse results = true ->
  sumPoints results <= MAX_SAFE_INTEGER ->
  Forall (fun r =>
            Double.mul (gradePoint r) (courseUnit r) == gradePoint r * courseUnit r
            /\ isWhole (Double.mul (gradePoint r) (courseUnit r)) = true)
         results.
Proof.
  intros Hw Hb. destruct (wholeCourse_nonneg results Hw) as [_ Hn].
  apply wholeCourse_fields in Hw. rewrite Forall_forall in Hw.
  apply Forall_forall. intros r Hr. destruct (Hw r Hr) as [Hg Hu].
  apply mul_whole; [exact Hg | exact Hu |].
  eapply Qle_trans; [| exact Hb].
  apply (sumOf_term_le (fun r => gradePoint r * courseUnit r) results r Hn Hr).
Qed.

Lemma roundedAverage_comp (p p' u u' : number) :
  p == p' -> u == u' -> roundedAverage p u = roundedAverage p' u'.
Proof.
  intros Hp Hu. unfold roundedAverage, Double.div, Double.mul.
  assert (E : p / u == p' / u') by now rewrite Hp, Hu.
  now rewrite (round_comp _ _ E).
Qed.

(** [Double.calculateGPA] on whole units and grade points: the totals are the
    exact sums, and the average is the rounded quotient of the exact sums. *)
Lemma calculateGPA_whole (results : list ScoredCourse) :
  forallb wholeCourse results = true ->
  sumUnits results <= MAX_SAFE_INTEGER ->
  sumPoints results <= MAX_SAFE_INTEGER ->
  GPA.totalUnits (Double.calculateGPA results) == sumUnits results
  /\ GPA.totalPoints (Double.calculateGPA results) == sumPoints results
  /\ GPA.gpa (Double.calculateGPA results)
     = if eqb (sumUnits results) 0 then 0
       else roundedAverage (sumPoints results) (sumUnits results).
Proof.
  intros Hw Hu Hp.
  destruct results as [| r0 rest] eqn:Er; [repeat split; reflexivity |].
  rewrite <- Er in *. clear Er r0 rest.
  assert (Eu : fold_left (fun sum r => Double.add sum (courseUnit r)) results 0
               == sumUnits results).
  { apply reduce_add_whole; [| exact Hu].
    eapply Forall_impl; [| exact (wholeCourse_fields results Hw)].
    cbn beta. tauto. }
  pose proof (points_exact results Hw Hp) as Hm.
  assert (Ep : fold_left
                 (fun sum r => Double.add sum
                                 (Double.mul (gradePoint r) (courseUnit r)))
                 results 0
               == sumPoints results).
  { assert (Es : sumOf (fun r => Double.mul (gradePoint r) (courseUnit r)) results
                 == sumPoints results).
    { apply sumOf_ext. eapply Forall_impl; [| exact Hm]. cbn beta. tauto. }
    rewrite (reduce_add_whole
               (fun r => Double.mul (gradePoint r) (courseUnit r))).
    - exact Es.
    - eapply Forall_impl; [| exact Hm]. cbn beta. tauto.
    - now rewrite Es. }
  assert (Ed : Double.calculateGPA results
               = let totalUnits :=
                   fold_left (fun sum r => Double.add sum (courseUnit r))
                     results 0 in
                 let totalPoints :=
                   fold_left
                     (fun sum r => Double.add sum
                                     (Double.mul (gradePoint r) (courseUnit r)))
                     results 0 in
                 if eqb totalUnits 0 then GPA.mk 0 0 0
                 else GPA.mk (roundedAverage totalPoints totalUnits)
                             totalUnits totalPoints).
  { destruct results; [| reflexivity].
    reflexivity. }
  rewrite Ed. cbv zeta. rewrite (eqb_congr _ _ 0 Eu).
  destruct (eqb (sumUnits results) 0) eqn:Ez;
    cbn [GPA.totalUnits GPA.totalPoints GPA.gpa].
  - apply eqb_true in Ez. split; [now rewrite Ez | split; [| reflexivity]].
    symmetry. apply no_units_no_points; [| exact Ez].
    apply (wholeCourse_nonneg results Hw).
  - split; [exact Eu | split; [exact Ep |]].
    now apply roundedAverage_comp.
Qed.

Lemma wholeSemester_fields (semesters : list Semester.aggregate) :
  forallb wholeSemester semesters = true ->
  Forall (fun s => isWhole (Semester.totalUnits s) = true) semesters
  /\ Forall (fun s => isWhole (Semester.totalPoints s) = true) semesters.
Proof.
  intros H. split; apply Forall_forall; intros s Hs;
    apply (proj1 (forallb_forall _ _) H) in Hs;
    now apply andb_true_iff in Hs.
Qed.

(** [Double.calculateCGPA] on whole semester totals. *)
Lemma calculateCGPA_whole (semesters : list Semester.aggregate) :
  forallb wholeSemester semesters = true ->
  sumSemesterUnits semesters <= MAX_SAFE_INTEGER ->
  sumSemesterPoints semesters <= MAX_SAFE_INTEGER ->
  (sumSemesterUnits semesters == 0
   /\ Double.calculateCGPA semesters = CGPA.mk 0 0 0)
  \/ (~ sumSemesterUnits semesters == 0
      /\ CGPA.totalUnits (Double.calculateCGPA semesters)
         == sumSemesterUnits semesters
      /\ CGPA.totalPoints (Double.calculateCGPA semesters)
         == sumSemesterPoints semesters
      /\ CGPA.cgpa (Double.calculateCGPA semesters)
         = roundedAverage (sumSemesterPoints semesters)
                          (sumSemesterUnits semesters)).
Proof.
  intros Hw Hu Hp. destruct (wholeSemester_fields semesters Hw) as [Wu Wp].
  pose proof (reduce_add_whole Semester.totalUnits semesters Wu Hu) as Eu.
  pose proof (reduce_add_whole Semester.totalPoints semesters Wp Hp) as Ep.
  fold (sumSemesterUnits semesters) in Eu.
  fold (sumSemesterPoints semesters) in Ep.
  assert (Ed : Double.calculateCGPA semesters
               = let totalUnits :=
                   fold_left (fun sum s => Double.add sum (Semester.totalUnits s))
                     semesters 0 in
                 let totalPoints :=
                   fold_left (fun sum s => Double.add sum (Semester.totalPoints s))
                     semesters 0 in
                 if eqb totalUnits 0 then CGPA.mk 0 0 0
                 else CGPA.mk (roundedAverage totalPoints totalUnits)
                              totalUnits totalPoints).
  { destruct semesters; reflexivity. }
  rewrite Ed. cbv zeta. rewrite (eqb_congr _ _ 0 Eu).
  destruct (eqb (sumSemesterUnits semesters) 0) eqn:Ez.
  - left. split; [now apply eqb_true | reflexivity].
  - right. cbn [CGPA.totalUnits CGPA.totalPoints CGPA.cgpa].
    split; [now apply eqb_false | split; [exact Eu | split; [exact Ep |]]].
    now apply roundedAverage_comp.
Qed.

(** Away from a tie, only one number with two decimal places is within half
    a hundredth. *)
Lemma isRounded2_unique (x y : number) :
  isRounded2 x y -> ~ isTie x -> y == round2 x.
Proof.
  intros [[k Hk] Hd] Hnt. unfold round2.
  apply Qabs_Qle_condition in Hd. rewrite Hk in Hd.
  pose proof (Qfloor_le (x * 100 + (1 # 2))) as F1.
  pose proof (Qlt_floor (x * 100 + (1 # 2))) as F2.
  set (f := Qfloor (x * 100 + (1 # 2))) in *.
  rewrite inject_Z_plus in F2. change (inject_Z 1) with 1 in F2.
  assert (Hkf : (k <= f)%Z).
  { apply Z.lt_succ_r. rewrite Zlt_Qlt. unfold Z.succ. rewrite inject_Z_plus.
    change (inject_Z 1) with 1.
    assert (E : inject_Z k / 100 * 100 == inject_Z k) by field. lra. }
  assert (Hfk : (f <= k)%Z).
  { destruct (Z_le_gt_dec f k) as [H | H]; [exact H | exfalso].
    apply Hnt. exists (f - 1)%Z.
    assert (H1 : inject_Z k <= inject_Z (f - 1)) by (rewrite <- Zle_Qle; lia).
    assert (E : inject_Z k / 100 * 100 == inject_Z k) by field.
    assert (E' : inject_Z (f - 1) == inject_Z f - 1).
    { replace (f - 1)%Z with (f + -1)%Z by lia. rewrite inject_Z_plus.
      change (inject_Z (-1)) with (-1). ring. }
    rewrite E' in *. lra. }
  rewrite Hk. replace k with f by lia. reflexivity.
Qed.

(** The rounded average of whole totals is the double nearest to a number
    with two decimal places that is within half a hundredth of the exact
    quotient. *)
Lemma roundedAverage_spec (p u : number) :
  isWhole p = true -> isWhole u = true ->
  p <= maxPoints -> 0 < u -> u <= MAX_SAFE_INTEGER ->
  exists h, isRounded2 (p / u) h /\ roundedAverage p u = Double.round h.
Proof.
  intros Wp Wu Hp Hu0 Hu.
  destruct (proj1 (isWhole_spec p) Wp) as (P & HP & Ep).
  destruct (proj1 (isWhole_spec u) Wu) as (U & HU & Eu).
  rewrite (roundedAverage_comp _ _ _ _ Ep Eu).
  set (k := Qfloor (Double.mul (Double.div (inject_Z P) (inject_Z U)) 100
                    + (1 # 2))).
  exists (inject_Z k / 100). split; [| reflexivity].
  assert (HPb : (0 <= P <= 2 ^ 43)%Z).
  { split; [exact HP |]. rewrite Ep in Hp. unfold maxPoints in Hp.
    change 8796093022208 with (inject_Z (2 ^ 43)) in Hp.
    now rewrite <- Zle_Qle in Hp. }
  assert (HUb : (0 < U < 2 ^ 53)%Z).
  { rewrite Eu in Hu0, Hu. unfold MAX_SAFE_INTEGER in Hu.
    change 0 with (inject_Z 0) in Hu0.
    change 9007199254740991 with (inject_Z 9007199254740991) in Hu.
    rewrite <- Zlt_Qlt in Hu0. rewrite <- Zle_Qle in Hu.
    change (2 ^ 53)%Z with 9007199254740992%Z. lia. }
  pose proof (average_hundredths P U HPb HUb) as H. fold k in H.
  apply Qabs_Qle_condition in H.
  split; [exists k; reflexivity |].
  rewrite Ep, Eu. apply Qabs_Qle_condition.
  assert (E : inject_Z k / 100 - inject_Z P / inject_Z U
              == (inject_Z k - 100 * (inject_Z P / inject_Z U)) / 100).
  { field. rewrite Eu in Hu0. lra. }
  rewrite E.
  split.
  - apply Qle_shift_div_l; [reflexivity | lra].
  - apply Qle_shift_div_r; [reflexivity | lra].
Qed.

(** Rounding to a double never crosses a whole number. *)
Lemma nearestEven_le (x : number) (m : Z) :
  x <= inject_Z m -> (Double.nearestEven x <= m)%Z.
Proof.
  intros H. unfold Double.nearestEven.
  pose proof (Qfloor_le x) as F.
  assert (Hf : (Qfloor x <= m)%Z).
  { rewrite Zle_Qle. lra. }
  assert (Hs : (1 # 2) <= x - inject_Z (Qfloor x) -> (Qfloor x + 1 <= m)%Z).
  { intros Hh. apply Z.le_succ_l. rewrite Zlt_Qlt. lra. }
  destruct (Qcompare_spec (x - inject_Z (Qfloor x)) (1 # 2)) as [E | E | E].
  - destruct (Z.even (Qfloor x)); [exact Hf | apply Hs; lra].
  - exact Hf.
  - apply Hs. lra.
Qed.

Lemma nearestEven_nonneg (x : number) : 0 <= x -> (0 <= Double.nearestEven x)%Z.
Proof.
  intros H. unfold Double.nearestEven.
  assert (Hf : (0 <= Qfloor x)%Z).
  { change 0%Z with (Qfloor 0). now apply Qfloor_resp_le. }
  destruct (Qcompare (x - inject_Z (Qfloor x)) (1 # 2));
    [destruct (Z.even (Qfloor x)) | |]; lia.
Qed.

Lemma round_nonneg (q : number) : 0 <= q -> 0 <= Double.round q.
Proof.
  intros H. unfold Double.round.
  destruct (Qeq_bool q 0); [discriminate |].
  pose proof (pow2_pos (Double.exponent q)) as Hp.
  apply Qmult_le_0_compat; [| lra].
  change 0 with (inject_Z 0). rewrite <- Zle_Qle.
  apply nearestEven_nonneg. apply Qle_shift_div_l; [exact Hp | lra].
Qed.

Lemma round_le_whole (q : number) (z : Z) :
  0 <= q -> q <= inject_Z z -> (z < 2 ^ 53)%Z -> Double.round q <= inject_Z z.
Proof.
  intros H0 Hz Hb. unfold Double.round.
  destruct (Qeq_bool q 0) eqn:E.
  { apply Qeq_bool_iff in E. lra. }
  assert (Hq : 0 < q).
  { apply Qeq_bool_neq in E. lra. }
  assert (Hz1 : (1 <= z)%Z).
  { assert (H : (0 < z)%Z) by (rewrite Zlt_Qlt; change (inject_Z 0) with 0; lra).
    lia. }
  set (e := Double.exponent q).
  assert (He : (e <= 0)%Z).
  { unfold e, Double.exponent.
    assert (Ea : Qabs q == q) by (apply Qabs_pos; lra).
    rewrite (ilog2_comp _ _ Ea).
    destruct (ilog2_spec q Hq) as [L1 _].
    assert (HL : (Double.ilog2 q < 53)%Z).
    { apply (Qpower_lt_compat_l_inv 2); [| reflexivity].
      eapply Qle_lt_trans; [exact L1 |].
      eapply Qle_lt_trans; [exact Hz |].
      rewrite pow2_inject by lia. now rewrite <- Zlt_Qlt. }
    lia. }
  pose proof (pow2_pos e) as Hp.
  assert (Hm : q / 2 ^ e <= inject_Z (z * 2 ^ (- e))).
  { rewrite inject_Z_mult, <- pow2_inject by lia. rewrite pow2_opp.
    apply Qmult_le_compat_r; [exact Hz |].
    apply Qinv_le_0_compat. lra. }
  apply nearestEven_le in Hm. rewrite Zle_Qle in Hm.
  rewrite inject_Z_mult, <- pow2_inject in Hm by lia.
  assert (Hc : inject_Z z == inject_Z z * 2 ^ (- e) * 2 ^ e).
  { rewrite <- Qmult_assoc, (Qmult_comm (2 ^ (- e))), pow2_cancel. ring. }
  rewrite Hc. apply Qmult_le_compat_r; [exact Hm | lra].
Qed.

(** A number with two decimal places nearest to a value between two such
    numbers lies between them. *)
Lemma isRounded2_between (x h : number) (a b : Z) :
  isRounded2 x h -> inject_Z a / 100 <= x -> x <= inject_Z b / 100 ->
  inject_Z a / 100 <= h /\ h <= inject_Z b / 100.
Proof.
  intros [[k Hk] Hd] Ha Hb. apply Qabs_Qle_condition in Hd.
  rewrite Hk in *.
  assert (Ek : inject_Z k / 100 * 100 == inject_Z k) by field.
  assert (Ea : inject_Z a / 100 * 100 == inject_Z a) by field.
  assert (Eb : inject_Z b / 100 * 100 == inject_Z b) by field.
  assert (H1 : (a <= k)%Z).
  { apply Z.lt_succ_r. rewrite Zlt_Qlt. unfold Z.succ. rewrite inject_Z_plus.
    change (inject_Z 1) with 1. lra. }
  assert (H2 : (k <= b)%Z).
  { apply Z.lt_succ_r. rewrite Zlt_Qlt. unfold Z.succ. rewrite inject_Z_plus.
    change (inject_Z 1) with 1. lra. }
  rewrite Zle_Qle in H1, H2. lra.
Qed.

(** The average and totals of whole aggregates are those of whole courses
    with the same sums. *)
Lemma cgpa_gpa_whole (aggregates : list Semester.aggregate)
    (courses : list ScoredCourse) :
  forallb wholeSemester aggregates = true ->
  forallb wholeCourse courses = true ->
  sumSemesterUnits aggregates == sumUnits courses ->
  sumSemesterPoints aggregates == sumPoints courses ->
  sumUnits courses <= MAX_SAFE_INTEGER ->
  sumPoints courses <= MAX_SAFE_INTEGER ->
  CGPA.cgpa (Double.calculateCGPA aggregates)
  = GPA.gpa (Double.calculateGPA courses)
  /\ CGPA.totalUnits (Double.calculateCGPA aggregates)
     == GPA.totalUnits (Double.calculateGPA courses)
  /\ CGPA.totalPoints (Double.calculateCGPA aggregates)
     == GPA.totalPoints (Double.calculateGPA courses).
Proof.
  intros Wa Wc Eu Ep Hu Hp.
  destruct (calculateGPA_whole courses Wc Hu Hp) as (Gu & Gp & Gg).
  rewrite Gu, Gp, Gg.
  destruct (calculateCGPA_whole aggregates Wa) as [[Hz E] | (Hnz & Cu & Cp & Cg)].
  - now rewrite Eu.
  - now rewrite Ep.
  - rewrite E. cbn [CGPA.cgpa CGPA.totalUnits CGPA.totalPoints].
    rewrite Eu in Hz. rewrite (proj2 (eqb_true _ 0) Hz).
    split; [reflexivity | split; [now rewrite Hz |]].
    symmetry. apply no_units_no_points; [| exact Hz].
    apply (wholeCourse_nonneg courses Wc).
  - rewrite Cu, Cp, Cg. rewrite Eu in Hnz.
    rewrite (proj2 (eqb_false _ 0) Hnz).
    split; [now apply roundedAverage_comp | split; assumption].
Qed.

Lemma forallb_app_true {A : Type} (f : A -> bool) (l1 l2 : list A) :
  forallb f (l1 ++ l2) = true <-> forallb f l1 = true /\ forallb f l2 = true.
Proof. rewrite forallb_app, andb_true_iff. tauto. Qed.

(** The totals [Double.calculateGPA] returns for each of several lists of
    whole courses are whole and add up to the sums over all the courses. *)
Lemma aggregates_whole (semesters : list (list ScoredCourse)) :
  forallb wholeCourse (List.concat semesters) = true ->
  sumUnits (List.concat semesters) <= MAX_SAFE_INTEGER ->
  sumPoints (List.concat semesters) <= MAX_SAFE_INTEGER ->
  let aggregates :=
    map (fun l => semesterAggregate (Double.calculateGPA l)) semesters in
  forallb wholeSemester aggregates = true
  /\ sumSemesterUnits aggregates == sumUnits (List.concat semesters)
  /\ sumSemesterPoints aggregates == sumPoints (List.concat semesters).
Proof.
  unfold sumSemesterUnits, sumSemesterPoints, sumUnits, sumPoints.
  induction semesters as [| l rest IH]; cbn [List.concat map forallb sumOf].
  - intros _ _ _. repeat split; reflexivity.
  - intros Hw Hu Hp. apply forallb_app_true in Hw. destruct Hw as [Wl Wr].
    rewrite sumOf_app in Hu, Hp.
    destruct (wholeCourse_nonneg l Wl) as [Nl1 Nl2].
    destruct (wholeCourse_nonneg _ Wr) as [Nr1 Nr2].
    pose proof (sumOf_nonneg _ _ Nl1) as S1.
    pose proof (sumOf_nonneg _ _ Nl2) as S2.
    pose proof (sumOf_nonneg _ _ Nr1) as S3.
    pose proof (sumOf_nonneg _ _ Nr2) as S4.
    destruct IH as (IHw & IHu & IHp); [exact Wr | lra | lra |].
    destruct (calculateGPA_whole l Wl) as (Gu & Gp & _);
      [unfold sumUnits; lra | unfold sumPoints; lra |].
    unfold sumUnits, sumPoints in Gu, Gp.
    cbn [semesterAggregate Semester.totalUnits Semester.totalPoints].
    rewrite !sumOf_app, IHu, IHp, Gu, Gp.
    split; [| split; reflexivity].
    rewrite IHw, andb_true_r. unfold wholeSemester.
    cbn [semesterAggregate Semester.totalUnits Semester.totalPoints].
    rewrite (isWhole_comp _ _ Gu), (isWhole_comp _ _ Gp).
    apply wholeCourse_fields in Wl.
    rewrite (sumOf_whole courseUnit l), (sumOf_whole _ l); [reflexivity | |].
    + eapply Forall_impl; [| exact Wl]. cbn beta. intros r [Hg Hc].
      now apply isWhole_mult.
    + eapply Forall_impl; [| exact Wl]. cbn beta. tauto.
Qed.

(** ** GPA and CGPA over doubles *)



(** At a quotient exactly halfway between two hundredths the code rounds
    either way: 179 points over 40 units are 4.475 and give 4.47, since the
    double [(179 / 40) * 100] is just below 447.5, while 1 point over 8 units
    is 0.125 and gives 0.13. *)
Lemma calculateGPA_at_ties :
  let down := [mkCourse 5 33; mkCourse 3 3; mkCourse 1 3; mkCourse 2 1] in
  let up := [mkCourse 1 1; mkCourse 0 7] in
  (sumPoints down == 179 /\ sumUnits down == 40
   /\ isTie (sumPoints down / sumUnits down)
   /\ GPA.gpa (Double.calculateGPA down) = Double.round 4.47)
  /\ (sumPoints up == 1 /\ sumUnits up == 8
      /\ isTie (sumPoints up / sumUnits up)
      /\ GPA.gpa (Double.calculateGPA up) = Double.round 0.13).
Proof.
  cbv zeta. split; (split; [reflexivity | split; [reflexivity | split]]).
  - exists 447%Z. reflexivity.
  - vm_compute. reflexivity.
  - exists 12%Z. reflexivity.
  - vm_compute. reflexivity.
Qed.



(** One semester of 41 points over 40 units: the quotient 1.025 is halfway
    between 1.02 and 1.03, and the code returns 1.02. *)
Lemma calculateCGPA_at_tie :
  isTie (41 / 40)
  /\ CGPA.cgpa (Double.calculateCGPA [Semester.mk 40 41]) = Double.round 1.02.
Proof.
  split; [exists 102%Z; reflexivity | vm_compute; reflexivity].
Qed.

(** X4.  For courses with whole units and whole grade points of at most 5,
    with totals in the range in which doubles count exactly, the GPA
    [calculateGPA] returns is between 0 and 5, whatever the list (empty and
    zero-unit lists included), and the returned totals satisfy
    [0 <= totalPoints <= 5 * totalUnits]. *)
Theorem calculateGPA_within_scale (results : list ScoredCourse) :
  forallb wholeCourse results = true ->
  Forall (fun r => gradePoint r <= 5) results ->
  sumUnits results <= MAX_SAFE_INTEGER ->
  sumPoints results <= maxPoints ->
  0 <= GPA.gpa (Double.calculateGPA results) <= 5
  /\ 0 <= GPA.totalPoints (Double.calculateGPA results)
  /\ GPA.totalPoints (Double.calculateGPA results)
     <= 5 * GPA.totalUnits (Double.calculateGPA results).
Proof.
  intros Hw H5 Hu Hp.
  assert (Hp' : sumPoints results <= MAX_SAFE_INTEGER).
  { eapply Qle_trans; [exact Hp | discriminate]. }
  destruct (calculateGPA_whole results Hw Hu Hp') as (Eu & Ep & Eg).
  pose proof (wholeCourse_fields results Hw) as Hf.
  assert (Hs : Forall (fun r => 0 <= gradePoint r <= 5 /\ 0 <= courseUnit r)
                      results).
  { rewrite Forall_forall in *. intros r Hr. destruct (Hf r Hr) as [Hg Hc].
    specialize (H5 r Hr). cbn beta in H5.
    repeat split; [now apply isWhole_nonneg | exact H5 | now apply isWhole_nonneg]. }
  destruct (sums_within_scale results Hs) as (Su & Sp0 & Sp5).
  rewrite Eu, Ep, Eg. split; [| split; assumption].
  destruct (eqb (sumUnits results) 0) eqn:Ez; [split; discriminate |].
  apply eqb_false in Ez.
  assert (Hpos : 0 < sumUnits results) by lra.
  destruct (roundedAverage_spec (sumPoints results) (sumUnits results))
    as (h & Hh & Er); try assumption.
  { apply sumOf_whole. eapply Forall_impl; [| exact Hf]. cbn beta.
    intros r [Hg Hc]. now apply isWhole_mult. }
  { apply sumOf_whole. eapply Forall_impl; [| exact Hf]. cbn beta. tauto. }
  rewrite Er.
  destruct (isRounded2_between _ h 0 500 Hh) as [B0 B5].
  { apply Qle_shift_div_l; [exact Hpos |].
    assert (E : inject_Z 0 / 100 == 0) by reflexivity. rewrite E. lra. }
  { apply Qle_shift_div_r; [exact Hpos |].
    assert (E : inject_Z 500 / 100 == 5) by reflexivity. rewrite E. lra. }
  assert (E0 : inject_Z 0 / 100 == 0) by reflexivity.
  assert (E5 : inject_Z 500 / 100 == 5) by reflexivity.
  rewrite E0 in B0. rewrite E5 in B5.
  split; [now apply round_nonneg |].
  apply (round_le_whole h 5); [exact B0 | exact B5 | reflexivity].
Qed.

Lemma calculateGPA_within_scale_witness :
  0 <= GPA.gpa (Double.calculateGPA [mkCourse 5 3; mkCourse 0 2; mkCourse 4 0])
    <= 5.
Proof.
  apply (calculateGPA_within_scale [mkCourse 5 3; mkCourse 0 2; mkCourse 4 0]).
  - reflexivity.
  - repeat constructor; discriminate.
  - discriminate.
  - discriminate.
Defined.

(** X5.  Folding semesters into a CGPA loses nothing: for courses with whole
    units and grade points, with totals in the range in which doubles count
    exactly, [calculateCGPA] applied to the totals [calculateGPA] returns for
    each semester gives the average and the totals [calculateGPA] gives for
    all the courses together. *)
Theorem cgpa_of_semesters_is_gpa_of_courses (semesters : list (list ScoredCourse)) :
  forallb wholeCourse (List.concat semesters) = true ->
  sumUnits (List.concat semesters) <= MAX_SAFE_INTEGER ->
  sumPoints (List.concat semesters) <= MAX_SAFE_INTEGER ->
  let aggregates :=
    map (fun l => semesterAggregate (Double.calculateGPA l)) semesters in
  CGPA.cgpa (Double.calculateCGPA aggregates)
  = GPA.gpa (Double.calculateGPA (List.concat semesters))
  /\ CGPA.totalUnits (Double.calculateCGPA aggregates)
     == GPA.totalUnits (Double.calculateGPA (List.concat semesters))
  /\ CGPA.totalPoints (Double.calculateCGPA aggregates)
     == GPA.totalPoints (Double.calculateGPA (List.concat semesters)).
Proof.
  intros Hw Hu Hp aggregates.
  destruct (aggregates_whole semesters Hw Hu Hp) as (Wa & Eu & Ep).
  now apply cgpa_gpa_whole.
Qed.

Lemma cgpa_of_semesters_is_gpa_of_courses_witness :
  CGPA.cgpa (Double.calculateCGPA
    (map (fun l => semesterAggregate (Double.calculateGPA l))
       [[mkCourse 5 3; mkCourse 3 2]; [mkCourse 4 2; mkCourse 2 2]]))
  = GPA.gpa (Double.calculateGPA
       (List.concat [[mkCourse 5 3; mkCourse 3 2]; [mkCourse 4 2; mkCourse 2 2]])).
Proof.
  apply (cgpa_of_semesters_is_gpa_of_courses
           [[mkCourse 5 3; mkCourse 3 2]; [mkCourse 4 2; mkCourse 2 2]]).
  - reflexivity.
  - discriminate.
  - discriminate.
Defined.

Lemma forallb_perm {A : Type} (f : A -> bool) (l l' : list A) :
  Permutation l l' -> forallb f l = forallb f l'.
Proof.
  induction 1 as [| x l l' _ IH | x y l | l l' l'' _ IH1 _ IH2]; cbn [forallb].
  - reflexivity.
  - now rewrite IH.
  - now rewrite !andb_assoc, (andb_comm (f y)).
  - now rewrite IH1.
Qed.

(** X24.  The order of the courses does not matter to [calculateGPA] when
    the units and grade points are whole and the totals are in the range in
    which doubles count exactly: two lists that are permutations of one
    another give the same GPA and the same totals. *)
Theorem calculateGPA_order_irrelevant (results results' : list ScoredCourse) :
  Permutation results results' ->
  forallb wholeCourse results = true ->
  sumUnits results <= MAX_SAFE_INTEGER ->
  sumPoints results <= MAX_SAFE_INTEGER ->
  GPA.equiv (Double.calculateGPA results) (Double.calculateGPA results').
Proof.
  intros Hperm Hw Hu Hp.
  assert (Eu : sumUnits results == sumUnits results')
    by (apply sumOf_perm; exact Hperm).
  assert (Ep : sumPoints results == sumPoints results')
    by (apply sumOf_perm; exact Hperm).
  assert (Hw' : forallb wholeCourse results' = true)
    by now rewrite <- (forallb_perm _ _ _ Hperm).
  destruct (calculateGPA_whole results Hw Hu Hp) as (Gu & Gp & Gg).
  destruct (calculateGPA_whole results' Hw') as (Gu' & Gp' & Gg');
    [now rewrite <- Eu | now rewrite <- Ep |].
  unfold GPA.equiv. rewrite Gu, Gp, Gg, Gu', Gp', Gg'.
  split; [| split; assumption].
  rewrite (eqb_congr _ _ 0 Eu).
  destruct (eqb (sumUnits results') 0); [reflexivity |].
  now rewrite (roundedAverage_comp _ _ _ _ Ep Eu).
Qed.

Lemma calculateGPA_order_irrelevant_witness :
  GPA.equiv (Double.calculateGPA [mkCourse 5 3; mkCourse 3 2])
            (Double.calculateGPA [mkCourse 3 2; mkCourse 5 3]).
Proof.
  apply (calculateGPA_order_irrelevant [mkCourse 5 3; mkCourse 3 2]
           [mkCourse 3 2; mkCourse 5 3]).
  - apply perm_swap.
  - reflexivity.
  - discriminate.
  - discriminate.
Defined.

(** ** The cumulative average of a student over doubles *)

Lemma double_semesterGPA_aggregates (host : Host) (studentId : string)
    (m : JsMap.t (list Result.t)) :
  map (fun s => Semester.mk (GPAResponse.totalUnits s) (GPAResponse.totalPoints s))
      (map (Double.semesterGPA host studentId) m)
  = map (fun l => semesterAggregate (Double.calculateGPA l))
        (map (fun kv => scoredCourses (snd kv)) m).
Proof.
  rewrite !map_map. apply map_ext. intros [key group].
  unfold Double.semesterGPA. destruct (parseKey host key). reflexivity.
Qed.

Lemma scoredCourses_concat (groups : list (list Result.t)) :
  List.concat (map scoredCourses groups) = scoredCourses (List.concat groups).
Proof.
  unfold scoredCourses. now rewrite concat_map.
Qed.

(** The groups of [getStudentCGPA] hold the results grouped, each once. *)
Lemma groups_perm (host : Host) (results : list Result.t)
    (m : JsMap.t (list Result.t)) :
  groupLoop host results [] = Return m ->
  Permutation (List.concat (map (fun kv => scoredCourses (snd kv)) m))
              (scoredCourses results).
Proof.
  intros Hm. destruct (groupLoop_perm host results [] m Hm) as [Hp _].
  cbn [map List.concat app] in Hp.
  rewrite <- (map_map snd scoredCourses), scoredCourses_concat.
  unfold scoredCourses. now apply Permutation_map.
Qed.

(** Over whole units and grade points, the average over the groups is the
    average over the results grouped. *)
Lemma double_cgpa_of_groups (host : Host) (studentId : string)
    (results : list Result.t) (m : JsMap.t (list Result.t)) :
  groupLoop host results [] = Return m ->
  forallb wholeCourse (scoredCourses results) = true ->
  sumUnits (scoredCourses results) <= MAX_SAFE_INTEGER ->
  sumPoints (scoredCourses results) <= MAX_SAFE_INTEGER ->
  let c :=
    Double.calculateCGPA
      (map (fun s => Semester.mk (GPAResponse.totalUnits s)
                                 (GPAResponse.totalPoints s))
           (map (Double.semesterGPA host studentId) m)) in
  CGPA.cgpa c = GPA.gpa (Double.calculateGPA (scoredCourses results))
  /\ CGPA.totalUnits c
     == GPA.totalUnits (Double.calculateGPA (scoredCourses results))
  /\ CGPA.totalPoints c
     == GPA.totalPoints (Double.calculateGPA (scoredCourses results)).
Proof.
  intros Hm Hw Hu Hp. cbv zeta. rewrite double_semesterGPA_aggregates.
  pose proof (groups_perm host results m Hm) as Hperm.
  set (semesters := map (fun kv => scoredCourses (snd kv)) m) in *.
  assert (Eu : sumUnits (List.concat semesters) == sumUnits (scoredCourses results))
    by (apply sumOf_perm; exact Hperm).
  assert (Ep : sumPoints (List.concat semesters)
               == sumPoints (scoredCourses results))
    by (apply sumOf_perm; exact Hperm).
  destruct (aggregates_whole semesters) as (Wa & Au & Ap).
  - now rewrite (forallb_perm _ _ _ Hperm).
  - now rewrite Eu.
  - now rewrite Ep.
  - apply cgpa_gpa_whole; try assumption.
    + now rewrite Au.
    + now rewrite Ap.
Qed.

(** [Double.getStudentCGPA] returns, and returns [null] in two cases only. *)
Lemma double_getStudentCGPA_returns (host : Host) (st : Storage.t)
    (studentId : string) :
  exists res,
    Double.getStudentCGPA host st studentId = Return res
    /\ (res = None <->
        find (fun s => String.eqb (Student.id s) studentId)
             (getFromStorage (Storage.students st) []) = None
        \/ resultsOfStudent st studentId = []).
Proof.
  unfold Double.getStudentCGPA. fold (storedResults st).
  fold (resultsOfStudent st studentId).
  destruct (find (fun s => String.eqb (Student.id s) studentId)
                 (getFromStorage (Storage.students st) [])) as [student |].
  2: { exists None. split; [reflexivity | tauto]. }
  destruct (resultsOfStudent st studentId) as [| r0 rest] eqn:E.
  { exists None. split; [reflexivity | tauto]. }
  rewrite <- E.
  destruct (groupLoop_returns host (resultsOfStudent st studentId) [])
    as (m & Hm & _). rewrite Hm. cbn [bind].
  eexists. split; [reflexivity |].
  split; [discriminate |]. rewrite E. intros [H | H]; discriminate H.
Qed.

(** What a response of [Double.getStudentCGPA] is made of. *)
Lemma double_getStudentCGPA_some (host : Host) (st : Storage.t)
    (studentId : string) (resp : CGPAResponse.t) :
  Double.getStudentCGPA host st studentId = Return (Some resp) ->
  exists m,
    groupLoop host (resultsOfStudent st studentId) [] = Return m
    /\ CGPAResponse.studentId resp = studentId
    /\ let c :=
         Double.calculateCGPA
           (map (fun s => Semester.mk (GPAResponse.totalUnits s)
                                      (GPAResponse.totalPoints s))
                (map (Double.semesterGPA host studentId) m)) in
       CGPAResponse.cgpa resp = CGPA.cgpa c
       /\ CGPAResponse.totalUnits resp = CGPA.totalUnits c
       /\ CGPAResponse.totalPoints resp = CGPA.totalPoints c.
Proof.
  unfold Double.getStudentCGPA. fold (storedResults st).
  fold (resultsOfStudent st studentId).
  destruct (find (fun s => String.eqb (Student.id s) studentId)
                 (getFromStorage (Storage.students st) [])) as [student |];
    [| discriminate].
  destruct (resultsOfStudent st studentId) as [| r0 rest] eqn:E; [discriminate |].
  rewrite <- E.
  destruct (groupLoop host (resultsOfStudent st studentId) []) as [m | e];
    cbn [bind]; [| discriminate].
  intros H. injection H as <-. exists m.
  cbn [CGPAResponse.studentId CGPAResponse.cgpa
       CGPAResponse.totalUnits CGPAResponse.totalPoints].
  repeat split.
Qed.

(** X16.  [getStudentCGPA] never throws.  It returns [null] exactly when no
    stored student has the identifier or the student has no result.
    Otherwise, when the student's units and grade points are whole and their
    totals are in the range in which doubles count exactly, its [cgpa],
    [totalUnits] and [totalPoints] are the average and the totals
    [calculateGPA] gives for all the student's results taken together:
    grouping the results by semester and adding up the semester totals loses
    nothing. *)
Theorem getStudentCGPA_is_gpa_of_all_results (host : Host) (st : Storage.t)
    (studentId : string) :
  exists res,
    Double.getStudentCGPA host st studentId = Return res
    /\ (res = None <->
        find (fun s => String.eqb (Student.id s) studentId)
             (getFromStorage (Storage.students st) []) = None
        \/ resultsOfStudent st studentId = [])
    /\ forall resp,
         res = Some resp ->
         let courses := scoredCourses (resultsOfStudent st studentId) in
         forallb wholeCourse courses = true ->
         sumUnits courses <= MAX_SAFE_INTEGER ->
         sumPoints courses <= MAX_SAFE_INTEGER ->
         CGPAResponse.studentId resp = studentId
         /\ CGPAResponse.cgpa resp = GPA.gpa (Double.calculateGPA courses)
         /\ CGPAResponse.totalUnits resp
            == GPA.totalUnits (Double.calculateGPA courses)
         /\ CGPAResponse.totalPoints resp
            == GPA.totalPoints (Double.calculateGPA courses).
Proof.
  destruct (double_getStudentCGPA_returns host st studentId)
    as (res & Hres & Hnone).
  exists res. split; [exact Hres | split; [exact Hnone |]].
  intros resp -> courses Hw Hu Hp.
  destruct (double_getStudentCGPA_some _ _ _ _ Hres)
    as (m & Hm & Hid & Hc & Hcu & Hcp).
  destruct (double_cgpa_of_groups host studentId _ m Hm Hw Hu Hp)
    as (Gc & Gu & Gp).
  rewrite Hc, Hcu, Hcp. auto.
Qed.

Lemma getStudentCGPA_is_gpa_of_all_results_witness :
  exists resp,
    Double.getStudentCGPA sampleHost sampleStorage "std1" = Return (Some resp)
    /\ CGPAResponse.cgpa resp
       = GPA.gpa (Double.calculateGPA
                    (scoredCourses (resultsOfStudent sampleStorage "std1"))).
Proof.
  destruct (getStudentCGPA_is_gpa_of_all_results sampleHost sampleStorage "std1")
    as (res & Hres & _ & Hall).
  destruct res as [resp |].
  - exists resp. split; [exact Hres |].
    apply (Hall resp eq_refl).
    + reflexivity.
    + discriminate.
    + discriminate.
  - exfalso. vm_compute in Hres. discriminate Hres.
Defined.

(** ** The department report over doubles *)

Lemma double_studentReport_results (results : list Result.t)
    (level semester : number) (student : Student.t) :
  StudentReport.student (Double.studentReport results level semester student)
  = student
  /\ StudentReport.results (Double.studentReport results level semester student)
     = filter (inSemester (Student.id student) level semester) results.
Proof. split; reflexivity. Qed.

Lemma double_getStudentGPA_semester_some (st : Storage.t) (studentId : string)
    (level semester : number) :
  getResults st studentId level semester <> [] ->
  exists g,
    Double.getStudentGPA st studentId (Some level) (Some semester) = Some g
    /\ GPAResponse.results g = getResults st studentId level semester
    /\ GPAResponse.gpa g
       = GPA.gpa (Double.calculateGPA
                    (scoredCourses (getResults st studentId level semester))).
Proof.
  intros Hne. unfold Double.getStudentGPA. rewrite getStudentGPA_filter.
  destruct (getResults st studentId level semester) as [| r rest];
    [contradiction |].
  eexists. split; [reflexivity | split; reflexivity].
Qed.

Lemma wholeResult_courses (results : list Result.t) :
  Forall wholeResult results ->
  forallb wholeCourse (scoredCourses results) = true.
Proof.
  induction 1 as [| r l (Hg & Hu & _) _ IH]; [reflexivity |].
  cbn [scoredCourses map forallb]. unfold wholeCourse at 1.
  cbn [gradePoint courseUnit]. rewrite Hg, Hu. exact IH.
Qed.

(** The cumulative average of a report line is the average of all the
    student's results. *)
Lemma double_studentReport_cgpa (results : list Result.t)
    (level semester : number) (student : Student.t) :
  let allResults :=
    filter (fun r => String.eqb (Result.studentId r) (Student.id student))
      results in
  Forall wholeResult allResults ->
  sumUnits (scoredCourses allResults) <= MAX_SAFE_INTEGER ->
  sumPoints (scoredCourses allResults) <= MAX_SAFE_INTEGER ->
  StudentReport.cgpa (Double.studentReport results level semester student)
  = GPA.gpa (Double.calculateGPA (scoredCourses allResults)).
Proof.
  intros allResults Hd Hu Hp.
  cbn [Double.studentReport StudentReport.cgpa]. fold allResults.
  pose proof (wholeResult_courses allResults Hd) as Hw.
  rewrite sumUnits_scoredCourses in Hu. rewrite sumPoints_scoredCourses in Hp.
  assert (Wu : Forall (fun r => isWhole (Result.courseUnit r) = true) allResults).
  { eapply Forall_impl; [| exact Hd]. cbn beta. intros r (_ & H & _). exact H. }
  pose proof (points_exact (scoredCourses allResults) Hw) as Hm.
  rewrite sumPoints_scoredCourses in Hm. specialize (Hm Hp).
  unfold scoredCourses in Hm. rewrite Forall_map in Hm.
  cbn [gradePoint courseUnit] in Hm.
  assert (Ex : Forall (fun r => Result.pxu r
                                == Result.gradePoint r * Result.courseUnit r
                                /\ isWhole (Result.pxu r) = true) allResults).
  { rewrite Forall_forall in *. intros r Hr.
    destruct (Hd r Hr) as (_ & _ & Hx). destruct (Hm r Hr) as [E W].
    unfold Double.calculatePXU in Hx.
    split; [now rewrite Hx | now rewrite (isWhole_comp _ _ Hx)]. }
  assert (Es : sumOf Result.pxu allResults
               == sumOf (fun r => Result.gradePoint r * Result.courseUnit r)
                        allResults).
  { apply sumOf_ext. eapply Forall_impl; [| exact Ex]. cbn beta. tauto. }
  assert (Eu : fold_left (fun sum r => Double.add sum (Result.courseUnit r))
                 allResults 0
               == sumOf Result.courseUnit allResults)
    by now apply reduce_add_whole.
  assert (Ep : fold_left (fun sum r => Double.add sum (Result.pxu r))
                 allResults 0
               == sumOf (fun r => Result.gradePoint r * Result.courseUnit r)
                        allResults).
  { rewrite (reduce_add_whole Result.pxu).
    - exact Es.
    - eapply Forall_impl; [| exact Ex]. cbn beta. tauto.
    - now rewrite Es. }
  apply cgpa_gpa_whole.
  - cbn [forallb]. unfold wholeSemester.
    cbn [Semester.totalUnits Semester.totalPoints].
    rewrite (isWhole_comp _ _ Eu), (isWhole_comp _ _ Ep).
    rewrite (sumOf_whole Result.courseUnit allResults Wu).
    rewrite (sumOf_whole _ allResults); [reflexivity |].
    eapply Forall_impl; [| exact Hd]. cbn beta. intros r (Hg & Hc & _).
    now apply isWhole_mult.
  - exact Hw.
  - unfold sumSemesterUnits. cbn [sumOf Semester.totalUnits].
    rewrite Eu, sumUnits_scoredCourses. ring.
  - unfold sumSemesterPoints. cbn [sumOf Semester.totalPoints].
    rewrite Ep, sumPoints_scoredCourses. ring.
  - now rewrite sumUnits_scoredCourses.
  - now rewrite sumPoints_scoredCourses.
Qed.

(** X18.  The department report agrees with the per-student queries: for
    every student it lists, [getStudentGPA] for the report's level and
    semester returns the same results and the same GPA, and, when the
    student's stored units and grade points are whole, every stored
    point-times-unit value is the product [saveResults] computes and the
    totals are in the range in which doubles count exactly, [getStudentCGPA]
    returns the same CGPA, although the report computes it from the stored
    point-times-unit values in one step and [getStudentCGPA] semester by
    semester. *)
Theorem department_report_agrees_with_student_queries (host : Host)
    (st : Storage.t) (departmentId : string) (level semester : number)
    (rep : DepartmentReport.t) (sr : StudentReport.t) :
  Double.getDepartmentReport st departmentId level semester = Some rep ->
  In sr (DepartmentReport.students rep) ->
  let studentId := Student.id (StudentReport.student sr) in
  (exists g,
     Double.getStudentGPA st studentId (Some level) (Some semester) = Some g
     /\ GPAResponse.results g = StudentReport.results sr
     /\ GPAResponse.gpa g = StudentReport.gpa sr)
  /\ (Forall wholeResult (resultsOfStudent st studentId) ->
      sumUnits (scoredCourses (resultsOfStudent st studentId))
      <= MAX_SAFE_INTEGER ->
      sumPoints (scoredCourses (resultsOfStudent st studentId))
      <= MAX_SAFE_INTEGER ->
      exists resp,
        Double.getStudentCGPA host st studentId = Return (Some resp)
        /\ CGPAResponse.cgpa resp = StudentReport.cgpa sr).
Proof.
  intros Hrep Hsr. cbv zeta.
  unfold Double.getDepartmentReport in Hrep.
  destruct (find (fun d => String.eqb (Department.id d) departmentId)
                 (getDepartments st)) as [department |]; [| discriminate].
  injection Hrep as <-. cbn [DepartmentReport.students] in Hsr.
  fold (storedResults st) in Hsr.
  apply filter_In in Hsr. destruct Hsr as [Hin Hne].
  apply in_map_iff in Hin. destruct Hin as (s & <- & Hs).
  destruct (double_studentReport_results (storedResults st) level semester s)
    as [E1 E2].
  rewrite E1. rewrite E2 in Hne. rewrite <- getResults_inSemester in Hne.
  split.
  - assert (Hne' : getResults st (Student.id s) level semester <> []).
    { intros E. rewrite E in Hne. discriminate Hne. }
    destruct (double_getStudentGPA_semester_some st (Student.id s) level
                semester Hne')
      as (g & Hg & R1 & R2).
    exists g. split; [exact Hg | split].
    + rewrite R1, E2. apply getResults_inSemester.
    + rewrite R2. reflexivity.
  - intros Hd Hu Hp.
    destruct (double_getStudentCGPA_returns host st (Student.id s))
      as (res & Hres & Hnone).
    destruct res as [resp |].
    + exists resp. split; [exact Hres |].
      destruct (double_getStudentCGPA_some _ _ _ _ Hres)
        as (m & Hm & _ & Hc & _).
      destruct (double_cgpa_of_groups host (Student.id s) _ m Hm
                  (wholeResult_courses _ Hd) Hu Hp) as (Gc & _).
      rewrite Hc, Gc. symmetry.
      apply (double_studentReport_cgpa (storedResults st) level semester s
               Hd Hu Hp).
    + exfalso. destruct (proj1 Hnone eq_refl) as [Hf | He].
      * destruct (getStudents_In _ _ _ Hs) as (s0 & Hin0 & Hid & _).
        exact (find_student_exists _ s0 _ Hin0 Hid Hf).
      * destruct (getResults st (Student.id s) level semester) as [| r rest] eqn:Er;
          [discriminate Hne |].
        assert (Hr : In r (resultsOfStudent st (Student.id s))).
        { apply (getResults_resultsOfStudent st _ level semester).
          rewrite Er. now left. }
        rewrite He in Hr. contradiction.
Qed.

Lemma department_report_agrees_with_student_queries_witness :
  exists rep sr,
    Double.getDepartmentReport sampleStorage "dept1" 100 1 = Some rep
    /\ In sr (DepartmentReport.students rep)
    /\ exists resp,
         Double.getStudentCGPA sampleHost sampleStorage
           (Student.id (StudentReport.student sr)) = Return (Some resp)
         /\ CGPAResponse.cgpa resp = StudentReport.cgpa sr.
Proof.
  eexists. eexists. split; [reflexivity |].
  split; [left; reflexivity |].
  eapply (proj2 (department_report_agrees_with_student_queries sampleHost
                   sampleStorage "dept1" 100 1 _ _ eq_refl
                   (or_introl eq_refl))).
  - repeat constructor.
  - discriminate.
  - discriminate.
Defined.

(** ** The two readings of the averages *)

(** On whole units and grade points the exact functions and those over
    doubles return the same totals, and the same average, up to its
    representation as a double, unless the quotient is exactly halfway
    between two hundredths. *)
Lemma calculateGPA_exact_and_double (results : list ScoredCourse) :
  forallb wholeCourse results = true ->
  sumUnits results <= MAX_SAFE_INTEGER ->
  sumPoints results <= maxPoints ->
  GPA.totalUnits (Double.calculateGPA results)
  == GPA.totalUnits (calculateGPA results)
  /\ GPA.totalPoints (Double.calculateGPA results)
     == GPA.totalPoints (calculateGPA results)
  /\ (~ isTie (sumPoints results / sumUnits results) ->
      GPA.gpa (Double.calculateGPA results)
      = Double.round (GPA.gpa (calculateGPA results))).
Proof.
  intros Hw Hu Hp.
  assert (Hp' : sumPoints results <= MAX_SAFE_INTEGER).
  { eapply Qle_trans; [exact Hp | discriminate]. }
  destruct (calculateGPA_whole results Hw Hu Hp') as (Eu & Ep & Eg).
  rewrite Eu, Ep, Eg.
  pose proof (wholeCourse_fields results Hw) as Hf.
  destruct (wholeCourse_nonneg results Hw) as [Nu Np].
  pose proof (sumOf_nonneg _ _ Nu) as Su. fold (sumUnits results) in Su.
  destruct (calculateGPA_cases results) as [[Hz E] | (Hnz & Xu & Xp & Xg)].
  - rewrite E. cbn [GPA.totalUnits GPA.totalPoints GPA.gpa].
    rewrite (proj2 (eqb_true _ 0) Hz).
    split; [exact Hz | split; [| reflexivity]].
    now apply no_units_no_points.
  - rewrite Xu, Xp. rewrite (proj2 (eqb_false _ 0) Hnz).
    split; [reflexivity | split; [reflexivity |]].
    intros Hnt. rewrite (round_comp _ _ Xg).
    destruct (roundedAverage_spec (sumPoints results) (sumUnits results))
      as (h & Hh & Er); try assumption.
    { apply sumOf_whole. eapply Forall_impl; [| exact Hf]. cbn beta.
      intros r [Hg Hc]. now apply isWhole_mult. }
    { apply sumOf_whole. eapply Forall_impl; [| exact Hf]. cbn beta. tauto. }
    { lra. }
    rewrite Er. apply round_comp. now apply isRounded2_unique.
Qed.

(** The zero-unit guard is the same over doubles: it tests the sum the code
    has computed. *)
Lemma calculateGPA_double_sentinel (results : list ScoredCourse) :
  Double.calculateGPA [] = GPA.mk 0 0 0
  /\ (fold_left (fun sum r => Double.add sum (courseUnit r)) results 0 == 0 ->
      Double.calculateGPA results = GPA.mk 0 0 0).
Proof.
  split; [reflexivity |].
  intros H. destruct results as [| r rest]; [reflexivity |].
  unfold Double.calculateGPA.
  now rewrite (proj2 (eqb_true _ 0) H).
Qed.
